(** * IITK firewall authenticator ([authenticator.py])

    A shallow embedding of the [Authenticator] class: the three regular
    expressions it scrapes the gateway pages with, [str.replace], and its
    methods [__state_check], [__login], [__keepalive], [__interupt_handler]
    and [run], written in a small state-and-exception monad over the
    authenticator object, the requests it sent, the console and the sleeps. *)

From Stdlib Require Import ZArith List Lia Bool Ascii String.
From Stdlib Require Import Numbers.DecimalString.
Import ListNotations.

Open Scope string_scope.
Open Scope Z_scope.

(* ------------------------------------------------------------------ *)
(** ** URL constants *)

Definition ONE_ONE_ONE_ONE : string := "http://1.1.1.1/".
Definition ONE_ONE_ONE_ONE_HTTPS : string := "https://1.1.1.1/".

(* ------------------------------------------------------------------ *)
(** ** Strings: the fragment of [re] and [str] the program uses *)

(** [str(n)] for a Python [int], as interpolated by the f-strings. *)
Definition str_of_int (n : Z) : string := NilZero.string_of_int (Z.to_int n).

Module Re.

Definition in_range (lo hi c : ascii) : bool :=
  (nat_of_ascii lo <=? nat_of_ascii c)%nat && (nat_of_ascii c <=? nat_of_ascii hi)%nat.

(** The class [[a-zA-Z0-9]]. *)
Definition is_alnum (c : ascii) : bool :=
  in_range "a" "z" c || in_range "A" "Z" c || in_range "0" "9" c.

(** The class [[a-z:0-9.]]. *)
Definition is_host_char (c : ascii) : bool :=
  in_range "a" "z" c || Ascii.eqb c ":" || in_range "0" "9" c || Ascii.eqb c ".".

Definition newline : ascii := "010".
Definition quote : ascii := "034".
Definition q : string := String quote EmptyString.

(** [.] without [re.DOTALL]: any character but a newline. *)
Definition is_dot (c : ascii) : bool := negb (Ascii.eqb c newline).

(** Match a literal at the head of [s]; the rest of [s] on success. *)
Fixpoint strip (lit s : string) : option string :=
  match lit with
  | EmptyString => Some s
  | String a lit' =>
      match s with
      | EmptyString => None
      | String b s' => if Ascii.eqb a b then strip lit' s' else None
      end
  end.

(** The longest head of [s] whose characters are all in the class [f]
    (a greedy starred class), and what follows it. *)
Fixpoint span (f : ascii -> bool) (s : string) : string * string :=
  match s with
  | EmptyString => (EmptyString, EmptyString)
  | String c s' =>
      if f c then let (a, b) := span f s' in (String c a, b)
      else (EmptyString, s)
  end.

(** The part of [s] before its last occurrence of [q]: what a greedy
    dot-star group followed by the literal [q] captures after
    backtracking. *)
Fixpoint until_last (q : ascii) (s : string) : option string :=
  match s with
  | EmptyString => None
  | String c s' =>
      match until_last q s' with
      | Some t => Some (String c t)
      | None => if Ascii.eqb c q then Some EmptyString else None
      end
  end.

(** [re.search]: the match at the leftmost position where the pattern
    matches, [None] when it matches nowhere. *)
Fixpoint search {A : Type} (match_at : string -> option A) (s : string) : option A :=
  match match_at s with
  | Some m => Some m
  | None =>
      match s with
      | EmptyString => None
      | String _ s' => search match_at s'
      end
  end.

(** Every character of [s] is in the class [f]. *)
Fixpoint every (f : ascii -> bool) (s : string) : bool :=
  match s with
  | EmptyString => true
  | String c s' => f c && every f s'
  end.

(** The pattern matches at none of the first [n] positions of [s]. *)
Fixpoint no_match_before {A : Type} (match_at : string -> option A) (n : nat) (s : string)
  : bool :=
  match n with
  | O => true
  | S n' =>
      match match_at s with
      | Some _ => false
      | None =>
          match s with
          | EmptyString => true
          | String _ s' => no_match_before match_at n' s'
          end
      end
  end.

(** The pattern [https://] + starred class [a-z:0-9.] + [/], anchored at
    the head of [s]; group 0. *)
Definition base_url_at (s : string) : option string :=
  match strip "https://" s with
  | None => None
  | Some rest =>
      let (host, rest') := span is_host_char rest in
      match rest' with
      | String "/" _ => Some ("https://" ++ host ++ "/")
      | _ => None
      end
  end.

Definition MAGIC_FIELD : string :=
  Eval cbv in "name=" ++ q ++ "magic" ++ q ++ " value=" ++ q.

(** The pattern of three groups: the literal [MAGIC_FIELD], one or more
    characters of the class [a-zA-Z0-9], a closing quote; anchored at the
    head of [s]; group 2. *)
Definition magic_at (s : string) : option string :=
  match strip MAGIC_FIELD s with
  | None => None
  | Some rest =>
      let (token, rest') := span is_alnum rest in
      match token, rest' with
      | String _ _, String c _ => if Ascii.eqb c quote then Some token else None
      | _, _ => None
      end
  end.

Definition LOCATION : string := Eval cbv in "location=" ++ q.

(** The pattern [window.location=] + quote + greedy dot-star group + quote,
    anchored at the head of [s]; group 1. The unescaped dot after
    [window] is a wildcard. *)
Definition redirect_at (s : string) : option string :=
  match strip "window" s with
  | Some (String c rest) =>
      if is_dot c then
        match strip LOCATION rest with
        | Some rest' => until_last quote (fst (span is_dot rest'))
        | None => None
        end
      else None
  | _ => None
  end.

End Re.

(** [s.replace(old, new)] for a non-empty [old]: every occurrence of [old],
    scanning from the left and skipping over each replaced one. *)
Fixpoint replace_from (old new : string) (skip : nat) (s : string) : string :=
  match s with
  | EmptyString => EmptyString
  | String c s' =>
      match skip with
      | S k => replace_from old new k s'
      | O =>
          if prefix old s
          then new ++ replace_from old new (String.length old - 1) s'
          else String c (replace_from old new 0 s')
      end
  end.

Definition replace (old new s : string) : string := replace_from old new 0 s.

(* ------------------------------------------------------------------ *)
(** ** Data model *)

Module Parser.
(** The parsed and validated command line. *)
Record t : Type := mk {
  username : string;
  password : string;
  verbose : bool;
  retry : Z;
  keepalive : Z
}.

(** The options as given on the command line, [None] for one that is
    absent; the two intervals already converted by [int]. *)
Record Argv : Type := mkArgv {
  arg_username : option string;
  arg_password : option string;
  arg_verbose : option string;
  arg_retry : option Z;
  arg_keepalive : option Z
}.

(** The attributes after [__parse_args], before validation. *)
Record Namespace : Type := mkNamespace {
  ns_username : option string;
  ns_password : option string;
  ns_verbose : bool;
  ns_retry : Z;
  ns_keepalive : Z
}.

(** [bool(s)] on a string: false for the empty string only. *)
Definition bool_of_str (s : string) : bool :=
  match s with
  | EmptyString => false
  | String _ _ => true
  end.

Definition default {A} (d : A) (given : option A) : A :=
  match given with
  | Some a => a
  | None => d
  end.

(** [__add_args] with [__parse_args]: the declared types and defaults. *)
Definition parse_args (a : Argv) : Namespace :=
  mkNamespace
    (arg_username a)
    (arg_password a)
    (default true (option_map bool_of_str (arg_verbose a)))
    (default 60 (arg_retry a))
    (default 2200 (arg_keepalive a)).

(** [input] and [getpass.getpass], asked only for an attribute that is
    [None]: the next line typed, [None] at end of input (EOFError). *)
Definition ask (given : option string) (typed : list string)
  : option (string * list string) :=
  match given with
  | Some s => Some (s, typed)
  | None =>
      match typed with
      | [] => None
      | line :: rest => Some (line, rest)
      end
  end.

(** [__validate_args]; the lines typed that are left over come back with
    the result. *)
Definition validate_args (ns : Namespace) (typed : list string)
  : option (t * list string) :=
  match ask (ns_username ns) typed with
  | None => None
  | Some (user, typed1) =>
      match ask (ns_password ns) typed1 with
      | None => None
      | Some (pass, typed2) =>
          Some (mk user pass (ns_verbose ns)
                  (if ns_retry ns <? 0 then 60 else ns_retry ns)
                  (if ns_keepalive ns <? 0 then 2200 else ns_keepalive ns),
                typed2)
      end
  end.

End Parser.

(** What the program reads of a [requests.Response]. [url] is the final
    URL, after the redirects [requests] followed. *)
Record Response : Type := mkResponse {
  status_code : Z;
  url : string;
  text : string
}.

Inductive Method : Type := GET | POST.

Record Request : Type := mkRequest {
  method : Method;
  target : string;
  headers : list (string * string);
  data : list (string * string)
}.

Definition USER_AGENT : list (string * string) := [("User-Agent", "Mozilla/5.0")].

Definition get_request (u : string) : Request := mkRequest GET u USER_AGENT [].
Definition post_request (u : string) (d : list (string * string)) : Request :=
  mkRequest POST u USER_AGENT d.

(** The outcome of one call into [requests]. *)
Inductive Reply : Type :=
| Fails                      (* requests.exceptions.RequestException *)
| Responds (r : Response).

(** The network: what the [n]-th request of the run is answered with. *)
Definition Network : Type := nat -> Request -> Reply.

Inductive Level : Type := INFO | ERROR | WARNING.

(** The attributes of the [Authenticator] object. *)
Record Authenticator : Type := mkAuthenticator {
  parser : Parser.t;
  logged_in : bool;
  logout_url : string
}.

(** The object together with what the process has done so far. *)
Record World : Type := mkWorld {
  self : Authenticator;
  requested : list Request;          (* calls into requests, oldest first *)
  console : list (Level * string);   (* lines given to logging *)
  slept : list Z                     (* arguments of time.sleep *)
}.

Inductive Exn : Type :=
| RequestException
| UnboundLocalError
| TypeError
| AttributeError
| ValueError
| OverflowError.

(** How a piece of the program ends. *)
Inductive Result (A : Type) : Type :=
| Returns (a : A) (w : World)
| Exits (code : Z) (w : World)     (* exit(code=...) *)
| Raises (e : Exn) (w : World)     (* an exception nobody caught *)
| OutOfFuel (w : World).           (* the loop was still running *)

Arguments Returns {A} a w.
Arguments Exits {A} code w.
Arguments Raises {A} e w.
Arguments OutOfFuel {A} w.

Definition M (A : Type) : Type := World -> Result A.

Definition ret {A} (a : A) : M A := fun w => Returns a w.

Definition bind {A B} (m : M A) (f : A -> M B) : M B :=
  fun w =>
    match m w with
    | Returns a w' => f a w'
    | Exits c w' => Exits c w'
    | Raises e w' => Raises e w'
    | OutOfFuel w' => OutOfFuel w'
    end.

Notation "x <- m ;; k" := (bind m (fun x => k))
  (at level 61, m at next level, right associativity).
Notation "m ;;; k" := (bind m (fun _ => k))
  (at level 61, right associativity).

Definition exit {A} (code : Z) : M A := fun w => Exits code w.
Definition raise {A} (e : Exn) : M A := fun w => Raises e w.
Definition out_of_fuel {A} : M A := fun w => OutOfFuel w.

(** [try: body  except <handles>: handler]. *)
Definition try_except {A} (handles : Exn -> bool) (body handler : M A) : M A :=
  fun w =>
    match body w with
    | Raises e w' => if handles e then handler w' else Raises e w'
    | r => r
    end.

Definition is_request_exception (e : Exn) : bool :=
  match e with RequestException => true | _ => false end.

Definition any_exception (e : Exn) : bool := true.

(** The exit status the operating system sees. *)
Definition exit_status {A} (r : Result A) : option Z :=
  match r with
  | Exits c _ => Some c
  | Raises _ _ => Some 1      (* traceback, then status 1 *)
  | Returns _ _ => None
  | OutOfFuel _ => None
  end.

Definition world_of {A} (r : Result A) : World :=
  match r with
  | Returns _ w | Exits _ w | Raises _ w | OutOfFuel w => w
  end.

(** *** Attribute access *)

Definition get_self {A} (f : Authenticator -> A) : M A := fun w => Returns (f (self w)) w.

Definition with_self (f : Authenticator -> Authenticator) (w : World) : World :=
  mkWorld (f (self w)) (requested w) (console w) (slept w).

Definition with_logged_in (b : bool) : World -> World :=
  with_self (fun a => mkAuthenticator (parser a) b (logout_url a)).

Definition with_logout_url (u : string) : World -> World :=
  with_self (fun a => mkAuthenticator (parser a) (logged_in a) u).

Definition set_logged_in (b : bool) : M unit :=
  fun w => Returns tt (with_logged_in b w).

Definition set_logout_url (u : string) : M unit :=
  fun w => Returns tt (with_logout_url u w).

(** *** Console *)

(** The world after a call of a [Console] method: a no-op unless verbose. *)
Definition note (l : Level) (message : string) (w : World) : World :=
  if Parser.verbose (parser (self w))
  then mkWorld (self w) (requested w) (console w ++ [(l, message)]) (slept w)
  else w.

Definition emit (l : Level) (message : string) : M unit :=
  fun w => Returns tt (note l message w).

Module Console.
Definition log : string -> M unit := emit INFO.
Definition error : string -> M unit := emit ERROR.
Definition warn : string -> M unit := emit WARNING.
End Console.

(** *** time.sleep *)

Definition asleep (seconds : Z) (w : World) : World :=
  mkWorld (self w) (requested w) (console w) (slept w ++ [seconds]).

(** The first length, in seconds, that no longer fits the clock of
    [time.sleep]. *)
Definition SLEEP_OVERFLOW : Z := 9223372037.

(** [time.sleep(seconds)]: the call is recorded; a negative length raises
    [ValueError], one from [SLEEP_OVERFLOW] on raises [OverflowError]. *)
Definition sleep (seconds : Z) : M unit :=
  fun w =>
    if seconds <? 0 then Raises ValueError (asleep seconds w)
    else if SLEEP_OVERFLOW <=? seconds then Raises OverflowError (asleep seconds w)
    else Returns tt (asleep seconds w).

(** The lengths [time.sleep] accepts. *)
Definition sleepable (seconds : Z) : Prop := 0 <= seconds < SLEEP_OVERFLOW.

(** The initial object of [Authenticator.__init__]. *)
Definition init (p : Parser.t) : World :=
  mkWorld (mkAuthenticator p false EmptyString) [] [] [].

(* ------------------------------------------------------------------ *)
(** ** The methods of [Authenticator] *)

(** The world after a call into [requests]. *)
Definition record (req : Request) (w : World) : World :=
  mkWorld (self w) (requested w ++ [req]) (console w) (slept w).

Inductive Control (A : Type) : Type :=
| Continue            (* next iteration of the enclosing while *)
| Break (a : A).      (* leave it *)

Arguments Continue {A}.
Arguments Break {A} a.

Section Methods.

Variable net : Network.

(** A call into [requests]: recorded, then answered by the network. *)
Definition send (req : Request) : M Response :=
  fun w =>
    match net (List.length (requested w)) req with
    | Responds r => Returns r (record req w)
    | Fails => Raises RequestException (record req w)
    end.

Definition requests_get (u : string) : M Response := send (get_request u).

Definition requests_post (u : string) (d : list (string * string)) : M Response :=
  send (post_request u d).

(** [try: response = <call>  except ...: <handler>], the handler leaving
    [response] unassigned. *)
Definition attempt (handles : Exn -> bool) (call : M Response) (handler : M unit)
  : M (option Response) :=
  try_except handles
    (response <- call ;; ret (Some response))
    (handler ;;; ret None).

(** *** [__interupt_handler] *)

Definition interupt_handler : M unit :=
  logged <- get_self logged_in ;;
  (if logged : bool then
     logout <- get_self logout_url ;;
     response <- attempt any_exception (requests_get logout)
                   (Console.error ("Cannot open URL: " ++ logout)) ;;
     match response with
     | None => raise UnboundLocalError     (* response was never bound *)
     | Some response =>
         if status_code response =? 200
         then Console.log "Successfully logged out"
         else ret tt
     end
   else Console.log "Exiting") ;;;
  exit 0.

(** *** [__state_check] *)

Definition state_check_body : M (Control Response) :=
  response <- attempt is_request_exception (requests_get ONE_ONE_ONE_ONE)
                (Console.error ("Cannot open URL: " ++ ONE_ONE_ONE_ONE ++ ".  Retrying")) ;;
  match response with
  | None => ret Continue
  | Some response =>
      if status_code response =? 200 then ret (Break response) else ret Continue
  end.

Fixpoint state_check_loop (fuel : nat) : M Response :=
  match fuel with
  | O => out_of_fuel
  | S fuel' =>
      c <- state_check_body ;;
      match c with
      | Continue => state_check_loop fuel'
      | Break response => ret response
      end
  end.

Definition state_check (fuel : nat) : M (bool * Response) :=
  Console.log "Checking state" ;;;
  response <- state_check_loop fuel ;;
  if (url response =? ONE_ONE_ONE_ONE_HTTPS)%string
  then ret (true, response)
  else ret (false, response).

(** *** [__login] *)

Definition login_data (p : Parser.t) (magic : string) : list (string * string) :=
  [ ("username", Parser.username p);
    ("password", Parser.password p);
    ("magic", magic);
    ("4Tredir", "/") ].

Definition login (response : Response) : M (bool * option Response) :=
  url1 <- match Re.search Re.base_url_at (url response) with
         | None =>
             Console.error "Cound not find base URL via regex match. Exiting" ;;;
             exit 1
         | Some u => ret u
         end ;;
  magic <- match Re.search Re.magic_at (text response) with
           | None =>
               Console.error "Could not find magic value via regex match. Exiting" ;;;
               exit 1
           | Some m => ret m
           end ;;
  p <- get_self parser ;;
  let data := login_data p magic in
  response <- attempt is_request_exception (requests_post url1 data)
                (Console.error ("Cannot open URL: " ++ url1)) ;;
  match response with
  | None => ret (false, None)
  | Some response =>
      if negb (status_code response =? 200) then ret (false, Some response)
      else
        url2 <- match Re.search Re.redirect_at (text response) with
               | None =>
                   Console.error "Invalid username/password combination. Exiting" ;;;
                   exit 1
               | Some u => ret u
               end ;;
        response <- requests_get url2 ;;
        if negb (status_code response =? 200) then
          Console.error "Failed to fetch keepalive webpage" ;;;
          ret (false, Some response)
        else
          Console.log "Successfully logged in" ;;;
          set_logged_in true ;;;
          set_logout_url (replace "keepalive" "logout" url2) ;;;
          ret (true, Some response)
  end.

(** *** [__keepalive] *)

Definition keepalive_body (url0 : string) : M (Control unit) :=
  response <- attempt is_request_exception (requests_get url0)
                (Console.error ("Cannot open URL: " ++ url0) ;;;
                 set_logged_in false) ;;
  match response with
  | None => ret (Break tt)
  | Some response =>
      if (status_code response =? 200) && (url response =? url0)%string then
        p <- get_self parser ;;
        Console.log ("Keeping alive (" ++ str_of_int (Parser.keepalive p) ++ " seconds)") ;;;
        sleep (Parser.keepalive p) ;;;
        ret Continue
      else
        Console.error "Something went wrong" ;;;
        set_logged_in false ;;;
        ret (Break tt)
  end.

Fixpoint keepalive (fuel : nat) (url0 : string) : M unit :=
  match fuel with
  | O => out_of_fuel
  | S fuel' =>
      c <- keepalive_body url0 ;;
      match c with
      | Continue => keepalive fuel' url0
      | Break _ => ret tt
      end
  end.

(** *** [run] *)

(** The end of an iteration of [run], from the result of [__login] on. *)
Definition after_login (fuel : nat) (sr : bool * option Response) : M unit :=
  let '(status, response) := sr in
  if negb status then ret tt       (* continue *)
  else
    match response with
    | None => raise AttributeError     (* None has no attribute url *)
    | Some response => keepalive fuel (url response)
    end.

(** One iteration of the [while True] of [run]; [fuel] bounds the loops
    of the methods it calls. *)
Definition run_body (fuel : nat) : M unit :=
  sr <- state_check fuel ;;
  let '(status, response) := sr in
  if status : bool then
    p <- get_self parser ;;
    Console.log ("Already logged in. Sleeping for " ++ str_of_int (Parser.retry p)) ;;;
    sleep (Parser.retry p)
  else
    url1 <- match Re.search Re.redirect_at (text response) with
           | None => raise TypeError       (* None is not subscriptable *)
           | Some u => ret u
           end ;;
    Console.log "Not logged in" ;;;
    response <- requests_get url1 ;;
    if negb (status_code response =? 200) then
      Console.error "Failed to fetch captive portal webpage. Retrying"
    else
      sr <- login response ;;
      after_login fuel sr.

Fixpoint run (fuel : nat) : M unit :=
  match fuel with
  | O => out_of_fuel
  | S fuel' => run_body fuel' ;;; run fuel'
  end.

End Methods.

(* ------------------------------------------------------------------ *)
(** ** A synthetic gateway, for running the program *)

Module Gateway.

Definition args : Parser.t := Parser.mk "user" "secret" true 60 2200.

Definition portal_url : string := "https://gw/fgtauth?0a1b".
Definition keepalive_url : string := "https://gw/keepalive?id=1".

Definition script (target : string) : string :=
  "<script>window.location=" ++ Re.q ++ target ++ Re.q ++ ";</script>".

Definition field (value : string) : string :=
  "<input type=hidden " ++ Re.MAGIC_FIELD ++ value ++ Re.q ++ ">".

(** The intercepted canary page, the login form, the answer to the
    credentials and the keepalive page. *)
Definition intercepted_text : string := Eval cbv in script portal_url.
Definition form_text : string := Eval cbv in field "0a1b".
Definition accepted_text : string := Eval cbv in script keepalive_url.

Definition intercepted : Response := mkResponse 200 ONE_ONE_ONE_ONE intercepted_text.
Definition form : Response := mkResponse 200 portal_url form_text.
Definition accepted : Response := mkResponse 200 "https://gw/" accepted_text.
Definition session : Response :=
  mkResponse 200 keepalive_url "<html>keepalive</html>".

Definition page (req : Request) : Reply :=
  if (target req =? ONE_ONE_ONE_ONE)%string then Responds intercepted
  else if (target req =? portal_url)%string then Responds form
  else if (target req =? "https://gw/")%string then Responds accepted
  else if (target req =? keepalive_url)%string then Responds session
  else if (target req =? "https://gw/logout?id=1")%string
       then Responds (mkResponse 200 "https://gw/logout?id=1" "bye")
  else Fails.

(** Accepts any credentials; the session is lost after [lifetime]
    requests. *)
Definition gateway (lifetime : nat) : Network :=
  fun n req => if (n <? lifetime)%nat then page req else Fails.

(** A network on which nothing can be reached. *)
Definition down : Network := fun _ _ => Fails.

(** The gateway answers the canary with an error page once, then lets
    it through. *)
Definition unavailable : Response :=
  mkResponse 503 ONE_ONE_ONE_ONE "Service Unavailable".
Definition open_internet : Response :=
  mkResponse 200 ONE_ONE_ONE_ONE_HTTPS "<html>1.1.1.1</html>".
Definition flaky : Network :=
  fun n _ => match n with O => Responds unavailable | _ => Responds open_internet end.

(** A gateway that answers the credentials with a page without the
    script. *)
Definition denied : Response :=
  mkResponse 200 "https://gw/" "<html>Authentication failed</html>".
Definition rejecting : Network :=
  fun _ req => match method req with POST => Responds denied | GET => page req end.

(** A form whose magic value is not alphanumeric. *)
Definition odd_form_text : string := Eval cbv in field "a-b".
Definition odd_form : Response := mkResponse 200 portal_url odd_form_text.


(** Every request is answered with a page without the script. *)
Definition blank : Network := fun _ _ => Responds denied.

(** The canary is intercepted, every later request gets an error page. *)
Definition overloaded : Network :=
  fun n req => match n with O => page req | _ => Responds unavailable end.



(** A quiet authenticator. *)
Definition quiet_args : Parser.t := Parser.mk "user" "secret" false 60 2200.

(** The world of a logged-in authenticator. *)
Definition online : World :=
  mkWorld (mkAuthenticator args true "https://gw/logout?id=1") [] [] [].

End Gateway.

(* ------------------------------------------------------------------ *)
(** ** Specification predicates *)

(** A transport failure, or a response whose status is not 200: the replies
    on which the loop of [__state_check] goes round again. *)
Definition not_ok (rp : Reply) : Prop :=
  match rp with
  | Fails => True
  | Responds r => status_code r <> 200
  end.

(** A network whose answer to a request does not change over time. *)
Definition stable (net : Network) : Prop :=
  forall n m req, net n req = net m req.

Definition canary : Request := get_request ONE_ONE_ONE_ONE.

(** The invariant of the session as the specification words it. *)
Definition session_invariant (w : World) : Prop :=
  logout_url (self w) <> EmptyString <-> logged_in (self w) = true.

(** The half of it the program maintains. *)
Definition logout_known (w : World) : Prop :=
  logged_in (self w) = true -> logout_url (self w) <> EmptyString.

(** The HTTP client answers no request for the empty URL with a response
    ([requests] raises [MissingSchema], a [RequestException]). *)
Definition rejects_empty_url (net : Network) : Prop :=
  forall n r, net n (get_request EmptyString) <> Responds r.

(** [m] keeps [I], however it ends. *)
Definition preserves {A} (I : World -> Prop) (m : M A) : Prop :=
  forall w, I w -> I (world_of (m w)).

(** The answer to a keepalive request for [u] that shows a healthy
    session. *)
Definition healthy (u : string) (rp : Reply) : Prop :=
  exists r, rp = Responds r /\ status_code r = 200 /\ url r = u.

(** The world after a healthy keepalive round on [u], before the sleep. *)
Definition kept_alive (u : string) (w : World) : World :=
  note INFO ("Keeping alive (" ++ str_of_int (Parser.keepalive (parser (self w)))
             ++ " seconds)")
    (record (get_request u) w).



Definition has_user_agent (r : Request) : Prop := headers r = USER_AGENT.


(** No character of [s] is a quote or a newline. *)
Definition plain (s : string) : bool :=
  Re.every (fun c => Re.is_dot c && negb (Ascii.eqb c Re.quote)) s.

(** [s] is at the end of a line: empty, or starting with a newline. *)
Definition at_line_end (s : string) : Prop :=
  match s with
  | EmptyString => True
  | String c _ => c = Re.newline
  end.

(* ------------------------------------------------------------------ *)
(** ** Worlds *)

Lemma self_note l m w : self (note l m w) = self w.
Proof. unfold note. now destruct (Parser.verbose _). Qed.

Lemma requested_note l m w : requested (note l m w) = requested w.
Proof. unfold note. now destruct (Parser.verbose _). Qed.

Lemma slept_note l m w : slept (note l m w) = slept w.
Proof. unfold note. now destruct (Parser.verbose _). Qed.

Lemma console_note l m w :
  console (note l m w) =
  (console w ++ (if Parser.verbose (parser (self w)) then [(l, m)] else []))%list.
Proof.
  unfold note. destruct (Parser.verbose _); simpl; [reflexivity|].
  now rewrite app_nil_r.
Qed.

Lemma length_requested_record req w :
  List.length (requested (record req w)) = S (List.length (requested w)).
Proof. simpl. rewrite length_app. simpl. lia. Qed.

Lemma sleep_eq z w : sleepable z -> sleep z w = Returns tt (asleep z w).
Proof.
  intros [Hlo Hhi]. unfold sleep.
  apply Z.ltb_ge in Hlo. apply Z.leb_gt in Hhi. now rewrite Hlo, Hhi.
Qed.

Lemma sleep_refused z w :
  ~ sleepable z ->
  exists e, sleep z w = Raises e (asleep z w) /\ (e = ValueError \/ e = OverflowError).
Proof.
  intros Hno. unfold sleep.
  destruct (z <? 0) eqn:Hlo; [exists ValueError; auto|].
  destruct (SLEEP_OVERFLOW <=? z) eqn:Hhi; [exists OverflowError; auto|].
  apply Z.ltb_ge in Hlo. apply Z.leb_gt in Hhi. contradiction Hno. now split.
Qed.

Lemma sleepable_dec z : sleepable z \/ ~ sleepable z.
Proof. unfold sleepable. lia. Qed.

(** Unfold the monad's plumbing in a goal. *)
Ltac unfold_monad :=
  cbv beta iota delta
    [bind ret exit raise out_of_fuel try_except attempt get_self
     set_logged_in set_logout_url emit Console.log Console.error Console.warn
     sleep send requests_get requests_post
     is_request_exception any_exception].

Create Rewrite HintDb world.
#[local] Hint Rewrite self_note requested_note slept_note length_requested_record : world.

(* ------------------------------------------------------------------ *)
(** ** The prober *)

Section Prober.

Variable net : Network.

Lemma state_check_body_eq w :
  state_check_body net w =
  match net (List.length (requested w)) canary with
  | Responds r =>
      Returns (if status_code r =? 200 then Break r else Continue) (record canary w)
  | Fails =>
      Returns Continue
        (note ERROR ("Cannot open URL: " ++ ONE_ONE_ONE_ONE ++ ".  Retrying")
           (record canary w))
  end.
Proof.
  unfold state_check_body. unfold_monad. fold canary.
  destruct (net _ canary) as [|r]; [reflexivity|].
  now destruct (status_code r =? 200).
Qed.

Lemma not_ok_shift n k :
  not_ok (net n canary) ->
  (forall i, (i < k)%nat -> not_ok (net (S n + i)%nat canary)) ->
  forall i, (i < S k)%nat -> not_ok (net (n + i)%nat canary).
Proof.
  intros H0 HS [|i] Hi.
  - now rewrite Nat.add_0_r.
  - replace (n + S i)%nat with (S n + i)%nat by lia. apply HS. lia.
Qed.

(** What the retry loop has done when it stops, either way. *)
Lemma state_check_loop_spec fuel : forall w,
  match state_check_loop net fuel w with
  | Returns r w' =>
      status_code r = 200 /\ self w' = self w /\ slept w' = slept w /\
      exists k, (k < fuel)%nat /\
        requested w' = (requested w ++ repeat canary (S k))%list /\
        net (List.length (requested w) + k)%nat canary = Responds r /\
        forall i, (i < k)%nat -> not_ok (net (List.length (requested w) + i)%nat canary)
  | OutOfFuel w' =>
      self w' = self w /\ slept w' = slept w /\
      requested w' = (requested w ++ repeat canary fuel)%list /\
      forall i, (i < fuel)%nat -> not_ok (net (List.length (requested w) + i)%nat canary)
  | Exits _ _ | Raises _ _ => False
  end.
Proof.
  induction fuel as [|fuel IH]; intros w; simpl.
  - unfold out_of_fuel. repeat split; [now rewrite app_nil_r | intros; lia].
  - unfold bind. rewrite state_check_body_eq.
    destruct (net (List.length (requested w)) canary) as [|r] eqn:Hnet.
    + specialize (IH (note ERROR ("Cannot open URL: " ++ ONE_ONE_ONE_ONE ++ ".  Retrying")
                        (record canary w))).
      destruct (state_check_loop net fuel _) as [r' w'|c w'|e w'|w']; try exact IH.
      * destruct IH as (H200 & Hself & Hslept & k & Hk & Hreq & Hans & Hretry).
        autorewrite with world in *. simpl in Hreq |- *.
        repeat split; auto.
        exists (S k). repeat split; [lia | | | ].
        -- rewrite Hreq, <- app_assoc. reflexivity.
        -- rewrite <- Hans. f_equal. lia.
        -- apply not_ok_shift.
           ++ rewrite Hnet. exact I.
           ++ exact Hretry.
      * destruct IH as (Hself & Hslept & Hreq & Hretry).
        autorewrite with world in *. simpl in Hreq |- *.
        repeat split; auto.
        -- rewrite Hreq, <- app_assoc. reflexivity.
        -- apply not_ok_shift.
           ++ rewrite Hnet. exact I.
           ++ exact Hretry.
    + destruct (status_code r =? 200) eqn:H200.
      * apply Z.eqb_eq in H200. unfold ret. simpl.
        repeat split; auto.
        exists 0%nat. repeat split; [lia | | intros; lia].
        now rewrite Nat.add_0_r.
      * apply Z.eqb_neq in H200.
        specialize (IH (record canary w)).
        destruct (state_check_loop net fuel _) as [r' w'|c w'|e w'|w']; try exact IH.
        -- destruct IH as (H200' & Hself & Hslept & k & Hk & Hreq & Hans & Hretry).
           autorewrite with world in *. simpl in Hreq |- *.
           repeat split; auto.
           exists (S k). repeat split; [lia | | | ].
           ++ rewrite Hreq, <- app_assoc. reflexivity.
           ++ rewrite <- Hans. f_equal. lia.
           ++ apply not_ok_shift.
              ** rewrite Hnet. exact H200.
              ** exact Hretry.
        -- destruct IH as (Hself & Hslept & Hreq & Hretry).
           autorewrite with world in *. simpl in Hreq |- *.
           repeat split; auto.
           ++ rewrite Hreq, <- app_assoc. reflexivity.
           ++ apply not_ok_shift.
              ** rewrite Hnet. exact H200.
              ** exact Hretry.
Qed.

Lemma ok_200 r : status_code r = 200 -> ~ not_ok (Responds r).
Proof. intros H200 Hr. exact (Hr H200). Qed.

(** The loop does return once a reply with status 200 comes. *)
Lemma state_check_loop_returns fuel k w r :
  (forall i, (i < k)%nat -> not_ok (net (List.length (requested w) + i)%nat canary)) ->
  net (List.length (requested w) + k)%nat canary = Responds r ->
  status_code r = 200 ->
  (k < fuel)%nat ->
  exists w', state_check_loop net fuel w = Returns r w' /\
             self w' = self w /\ slept w' = slept w /\
             requested w' = (requested w ++ repeat canary (S k))%list.
Proof.
  intros Hretry Hans H200 Hk.
  pose proof (state_check_loop_spec fuel w) as Hspec.
  destruct (state_check_loop net fuel w) as [r' w'|c w'|e w'|w']; try contradiction.
  - destruct Hspec as (H200' & Hself & Hslept & k' & Hk' & Hreq & Hans' & Hretry').
    assert (k' = k) as ->.
    { destruct (Nat.lt_trichotomy k' k) as [Hlt|[Heq|Hgt]]; [|exact Heq|].
      - specialize (Hretry k' Hlt). rewrite Hans' in Hretry.
        now apply ok_200 in Hretry.
      - specialize (Hretry' k Hgt). rewrite Hans in Hretry'.
        now apply ok_200 in Hretry'. }
    rewrite Hans in Hans'. injection Hans' as <-.
    exists w'. auto.
  - destruct Hspec as (_ & _ & _ & Hall).
    specialize (Hall k Hk). rewrite Hans in Hall.
    now apply ok_200 in Hall.
Qed.

Lemma state_check_eq fuel w :
  state_check net fuel w =
  match state_check_loop net fuel (note INFO "Checking state" w) with
  | Returns r w' => Returns ((url r =? ONE_ONE_ONE_ONE_HTTPS)%string, r) w'
  | Exits c w' => Exits c w'
  | Raises e w' => Raises e w'
  | OutOfFuel w' => OutOfFuel w'
  end.
Proof.
  unfold state_check, bind, Console.log, emit.
  destruct (state_check_loop net fuel _) as [r w'|c w'|e w'|w']; try reflexivity.
  now destruct (url r =? ONE_ONE_ONE_ONE_HTTPS)%string.
Qed.

(** Every response the prober hands back left the loop through [break]. *)
Lemma state_check_returns_200 fuel w b r w' :
  state_check net fuel w = Returns (b, r) w' -> status_code r = 200.
Proof.
  rewrite state_check_eq.
  pose proof (state_check_loop_spec fuel (note INFO "Checking state" w)) as Hspec.
  destruct (state_check_loop net fuel _) as [r0 w0|c w0|e w0|w0]; try discriminate.
  intros [= _ <- _]. apply Hspec.
Qed.

(** The prober neither exits nor raises, and leaves the object alone. *)
Lemma state_check_frame fuel w :
  self (world_of (state_check net fuel w)) = self w /\
  exit_status (state_check net fuel w) = None.
Proof.
  rewrite state_check_eq.
  pose proof (state_check_loop_spec fuel (note INFO "Checking state" w)) as Hspec.
  destruct (state_check_loop net fuel _) as [r0 w0|c w0|e w0|w0]; try contradiction; simpl.
  - destruct Hspec as (_ & Hself & _). now rewrite Hself, self_note.
  - destruct Hspec as (Hself & _). now rewrite Hself, self_note.
Qed.

Lemma state_check_returns fuel k w r :
  (forall i, (i < k)%nat -> not_ok (net (List.length (requested w) + i)%nat canary)) ->
  net (List.length (requested w) + k)%nat canary = Responds r ->
  status_code r = 200 ->
  (k < fuel)%nat ->
  exists w', state_check net fuel w =
               Returns ((url r =? ONE_ONE_ONE_ONE_HTTPS)%string, r) w' /\
             self w' = self w /\
             requested w' = (requested w ++ repeat canary (S k))%list.
Proof.
  intros Hretry Hans H200 Hk.
  rewrite state_check_eq.
  destruct (state_check_loop_returns fuel k (note INFO "Checking state" w) r)
    as (w' & -> & Hself & _ & Hreq); autorewrite with world; auto.
  exists w'. autorewrite with world in *. auto.
Qed.

End Prober.

Lemma state_check_returns_inv net fuel w res w' :
  state_check net fuel w = Returns res w' ->
  exists k r,
    res = ((url r =? ONE_ONE_ONE_ONE_HTTPS)%string, r) /\
    status_code r = 200 /\
    net (List.length (requested w) + k)%nat canary = Responds r /\
    self w' = self w.
Proof.
  rewrite state_check_eq.
  pose proof (state_check_loop_spec net fuel (note INFO "Checking state" w)) as Hspec.
  destruct (state_check_loop net fuel _) as [r0 w0|c w0|e w0|w0]; try discriminate.
  intros [= <- <-].
  destruct Hspec as (H200 & Hself & _ & k & _ & _ & Hans & _).
  autorewrite with world in *.
  exists k, r0. auto.
Qed.

(** C3 (as amended): every response with status 200 that the prober obtains
    ends the retry loop and is returned, classified as authenticated exactly
    when its final URL is the secure canary address, as not authenticated
    otherwise. Replies before it that failed or carried another status were
    retried and are not returned. *)
Theorem state_check_classifies net fuel k w r :
  (forall i, (i < k)%nat -> not_ok (net (List.length (requested w) + i)%nat canary)) ->
  net (List.length (requested w) + k)%nat canary = Responds r ->
  status_code r = 200 ->
  (k < fuel)%nat ->
  exists b w',
    state_check net fuel w = Returns (b, r) w' /\
    (b = true <-> url r = ONE_ONE_ONE_ONE_HTTPS).
Proof.
  intros Hretry Hans H200 Hk.
  destruct (state_check_returns net fuel k w r Hretry Hans H200 Hk) as (w' & Heq & _).
  exists (url r =? ONE_ONE_ONE_ONE_HTTPS)%string, w'.
  split; [exact Heq | apply String.eqb_eq].
Qed.

Lemma state_check_classifies_witness :
  exists b w',
    state_check Gateway.flaky 2 (init Gateway.args) = Returns (b, Gateway.open_internet) w' /\
    (b = true <-> url Gateway.open_internet = ONE_ONE_ONE_ONE_HTTPS).
Proof.
  apply (state_check_classifies Gateway.flaky 2 1 (init Gateway.args) Gateway.open_internet).
  - intros [|i] Hi; [simpl; discriminate | lia].
  - reflexivity.
  - reflexivity.
  - lia.
Defined.

(** C3 (as stated) fails: the first response the prober obtains here has
    status 503 and a URL other than the secure canary address, yet the
    prober does not return it as not authenticated; it asks again and
    returns the next response as authenticated. *)
Lemma state_check_discards_non200 :
  Gateway.flaky 0%nat canary = Responds Gateway.unavailable /\
  url Gateway.unavailable <> ONE_ONE_ONE_ONE_HTTPS /\
  (exists w', state_check Gateway.flaky 2 (init Gateway.args)
              = Returns (true, Gateway.open_internet) w') /\
  (forall fuel w', state_check Gateway.flaky fuel (init Gateway.args)
                   <> Returns (false, Gateway.unavailable) w').
Proof.
  split; [reflexivity|]. split; [discriminate|]. split.
  - eexists. reflexivity.
  - intros fuel w' H. apply state_check_returns_200 in H. discriminate H.
Qed.

(** C9: a call of the prober, however it ends and however often it not_ok,
    leaves the object (so [logged_in] and [logout_url]) as it was; and on a
    stable network, once a call has returned, every further call returns the
    same classification and response. *)
Theorem state_check_never_mutates net fuel w :
  (logged_in (self (world_of (state_check net fuel w))) = logged_in (self w) /\
   logout_url (self (world_of (state_check net fuel w))) = logout_url (self w)) /\
  (stable net ->
   forall res w', state_check net fuel w = Returns res w' ->
   forall fuel2 w2, (0 < fuel2)%nat ->
   exists w2', state_check net fuel2 w2 = Returns res w2' /\
               logged_in (self w2') = logged_in (self w2) /\
               logout_url (self w2') = logout_url (self w2)).
Proof.
  split.
  - destruct (state_check_frame net fuel w) as [-> _]. auto.
  - intros Hstable res w' Hret fuel2 w2 Hfuel2.
    apply state_check_returns_inv in Hret.
    destruct Hret as (k & r & -> & H200 & Hans & _).
    destruct (state_check_returns net fuel2 0 w2 r) as (w2' & Heq & Hself & _); auto.
    + intros i Hi. lia.
    + rewrite <- Hans. apply Hstable.
    + exists w2'. rewrite Hself. auto.
Qed.

Lemma stable_always : stable (fun _ => Gateway.page).
Proof. intros n m req. reflexivity. Qed.

Lemma state_check_never_mutates_witness :
  exists w2',
    state_check (fun _ => Gateway.page) 7 (init Gateway.args)
    = Returns (false, Gateway.intercepted) w2' /\
    logged_in (self w2') = false /\
    logout_url (self w2') = EmptyString.
Proof.
  refine (proj2 (state_check_never_mutates (fun _ => Gateway.page) 1 Gateway.online)
            stable_always (false, Gateway.intercepted) _ eq_refl 7%nat (init Gateway.args) _).
  lia.
Defined.

(** C10: every response the prober returns has status 200; and when every
    answer to the canary request is a failure or a response with another
    status, the prober never returns: whatever the fuel, the loop is still
    running, having asked as many times as it had fuel. *)
Theorem state_check_only_returns_200 net fuel w :
  (forall b r w', state_check net fuel w = Returns (b, r) w' -> status_code r = 200) /\
  ((forall n, not_ok (net n canary)) ->
   exists w', state_check net fuel w = OutOfFuel w' /\
              requested w' = (requested w ++ repeat canary fuel)%list).
Proof.
  split.
  - intros b r w'. apply state_check_returns_200.
  - intros Hall. rewrite state_check_eq.
    pose proof (state_check_loop_spec net fuel (note INFO "Checking state" w)) as Hspec.
    destruct (state_check_loop net fuel _) as [r0 w0|c w0|e w0|w0]; try contradiction.
    + destruct Hspec as (H200 & _ & _ & k & _ & _ & Hans & _).
      specialize (Hall (List.length (requested (note INFO "Checking state" w)) + k)%nat).
      rewrite Hans in Hall. now apply ok_200 in Hall.
    + destruct Hspec as (_ & _ & Hreq & _).
      exists w0. split; [reflexivity|]. now rewrite Hreq, requested_note.
Qed.

Lemma state_check_only_returns_200_witness :
  exists w', state_check (fun _ _ => Responds Gateway.unavailable) 5 (init Gateway.args)
             = OutOfFuel w' /\
             requested w' = repeat canary 5.
Proof.
  refine (proj2 (state_check_only_returns_200
                   (fun _ _ => Responds Gateway.unavailable) 5 (init Gateway.args)) _).
  intros n. simpl. discriminate.
Defined.

(* ------------------------------------------------------------------ *)
(** ** The interrupt handler *)

Lemma interupt_handler_eq net w :
  interupt_handler net w =
  if logged_in (self w) then
    let logout := get_request (logout_url (self w)) in
    match net (List.length (requested w)) logout with
    | Responds r =>
        Exits 0 (if status_code r =? 200
                 then note INFO "Successfully logged out" (record logout w)
                 else record logout w)
    | Fails =>
        Raises UnboundLocalError
          (note ERROR ("Cannot open URL: " ++ logout_url (self w)) (record logout w))
    end
  else Exits 0 (note INFO "Exiting" w).
Proof.
  unfold interupt_handler. unfold_monad.
  destruct (logged_in (self w)); [|reflexivity]. cbv zeta.
  destruct (net _ _) as [|r]; [reflexivity|].
  now destruct (status_code r =? 200).
Qed.

(** Not logged in: status 0 and no request. Logged in and the logout
    request answered, with whatever status: one GET to the logout URL, then
    status 0. *)
Lemma interupt_handler_clean_exit net w :
  (logged_in (self w) = false ->
   exists w', interupt_handler net w = Exits 0 w' /\ requested w' = requested w) /\
  (forall r, logged_in (self w) = true ->
   net (List.length (requested w)) (get_request (logout_url (self w))) = Responds r ->
   exists w', interupt_handler net w = Exits 0 w' /\
              requested w' = (requested w ++ [get_request (logout_url (self w))])%list).
Proof.
  rewrite interupt_handler_eq. split.
  - intros ->. eexists. split; [reflexivity|]. now rewrite requested_note.
  - intros r -> Hans. simpl. rewrite Hans. eexists. split; [reflexivity|].
    destruct (status_code r =? 200); [rewrite requested_note|]; reflexivity.
Qed.

(** C2 (the code at the failing input): the interrupt arrives while logged
    in and the logout request fails in transport. The handler issues the one
    GET, logs the failure, and then reads the response that was never bound:
    it ends in an uncaught [UnboundLocalError], not in [exit(code=0)], and
    the status of the process is 1. *)
Theorem interupt_handler_logout_failure :
  logged_in (self Gateway.online) = true /\
  interupt_handler Gateway.down Gateway.online =
    Raises UnboundLocalError
      (mkWorld (self Gateway.online)
         [get_request "https://gw/logout?id=1"]
         [(ERROR, "Cannot open URL: https://gw/logout?id=1")]
         []) /\
  exit_status (interupt_handler Gateway.down Gateway.online) = Some 1.
Proof. repeat split. Qed.

(* ------------------------------------------------------------------ *)
(** ** The keepalive loop *)

Section Keepalive.

Variable net : Network.
Variable u : string.

Lemma keepalive_body_eq w :
  keepalive_body net u w =
  let w1 := record (get_request u) w in
  let p := parser (self w) in
  match net (List.length (requested w)) (get_request u) with
  | Fails =>
      Returns (Break tt) (with_logged_in false (note ERROR ("Cannot open URL: " ++ u) w1))
  | Responds r =>
      if (status_code r =? 200) && (url r =? u)%string
      then (sleep (Parser.keepalive p) ;;; ret Continue)
             (note INFO ("Keeping alive (" ++ str_of_int (Parser.keepalive p) ++ " seconds)") w1)
      else Returns (Break tt) (with_logged_in false (note ERROR "Something went wrong" w1))
  end.
Proof.
  unfold keepalive_body. unfold_monad. cbv zeta.
  destruct (net _ _) as [|r]; [reflexivity|].
  now destruct ((status_code r =? 200) && (url r =? u)%string).
Qed.

Lemma healthy_test r :
  (status_code r =? 200) && (url r =? u)%string = true <-> healthy u (Responds r).
Proof.
  rewrite andb_true_iff, Z.eqb_eq, String.eqb_eq. unfold healthy. split.
  - intros [H200 Hurl]. now exists r.
  - intros (r' & [= <-] & H200 & Hurl). auto.
Qed.

Lemma not_healthy_fails : ~ healthy u Fails.
Proof. intros (r & Heq & _). discriminate. Qed.

(** One round on a healthy reply: the sleep, then the next round. *)
Lemma keepalive_step_healthy w fuel r :
  net (List.length (requested w)) (get_request u) = Responds r ->
  healthy u (Responds r) ->
  keepalive net (S fuel) u w =
  (sleep (Parser.keepalive (parser (self w))) ;;; keepalive net fuel u) (kept_alive u w).
Proof.
  intros Hans Hh. apply healthy_test in Hh.
  simpl. unfold bind at 1. rewrite keepalive_body_eq. cbv zeta. rewrite Hans, Hh.
  unfold kept_alive, bind, ret.
  now destruct (sleep _ _).
Qed.

(** One round on any other reply. *)
Lemma keepalive_step_lost w fuel :
  ~ healthy u (net (List.length (requested w)) (get_request u)) ->
  exists w',
    keepalive_body net u w = Returns (Break tt) w' /\
    keepalive net (S fuel) u w = Returns tt w' /\
    self w' = self (with_logged_in false w) /\
    requested w' = (requested w ++ [get_request u])%list /\
    slept w' = slept w.
Proof.
  intros Hh. simpl. unfold bind. rewrite keepalive_body_eq. cbv zeta.
  destruct (net _ _) as [|r].
  - eexists. split; [reflexivity|]. split; [reflexivity|].
    unfold with_logged_in, with_self. simpl.
    now rewrite self_note, requested_note, slept_note.
  - destruct ((status_code r =? 200) && (url r =? u)%string) eqn:Hok.
    + now apply healthy_test in Hok.
    + eexists. split; [reflexivity|]. split; [reflexivity|].
      unfold with_logged_in, with_self. simpl.
      now rewrite self_note, requested_note, slept_note.
Qed.

Lemma self_kept_alive w : self (kept_alive u w) = self w.
Proof. unfold kept_alive. now rewrite self_note. Qed.

(** The loop returns with [logged_in] false and nothing else of the object
    changed, or is still running with the object as it was; it never
    exits, and it raises only when [time.sleep] refuses the keepalive
    interval. *)
Lemma keepalive_spec fuel : forall w,
  match keepalive net fuel u w with
  | Returns _ w' => self w' = self (with_logged_in false w)
  | OutOfFuel w' => self w' = self w
  | Raises e w' =>
      self w' = self w /\
      ~ sleepable (Parser.keepalive (parser (self w))) /\
      (e = ValueError \/ e = OverflowError)
  | Exits _ _ => False
  end.
Proof.
  induction fuel as [|fuel IH]; intros w; [reflexivity|].
  destruct (net (List.length (requested w)) (get_request u)) as [|r] eqn:Hans.
  - destruct (keepalive_step_lost w fuel) as (w' & _ & -> & Hself & _); [|exact Hself].
    rewrite Hans. apply not_healthy_fails.
  - destruct ((status_code r =? 200) && (url r =? u)%string) eqn:Hok.
    + rewrite (keepalive_step_healthy w fuel r Hans) by now apply healthy_test.
      unfold bind.
      destruct (sleepable_dec (Parser.keepalive (parser (self w)))) as [Hs|Hs].
      * rewrite (sleep_eq _ _ Hs).
        specialize (IH (asleep (Parser.keepalive (parser (self w))) (kept_alive u w))).
        assert (Hself : self (asleep (Parser.keepalive (parser (self w))) (kept_alive u w))
                        = self w) by apply self_kept_alive.
        destruct (keepalive net fuel u _) as [[] w'|c w'|e w'|w']; try exact IH.
        -- rewrite IH. unfold with_logged_in, with_self. simpl. now rewrite self_kept_alive.
        -- now rewrite Hself in IH.
        -- now rewrite IH.
      * destruct (sleep_refused _ (kept_alive u w) Hs) as (e & -> & He).
        split; [apply self_kept_alive | now split].
    + destruct (keepalive_step_lost w fuel) as (w' & _ & -> & Hself & _); [|exact Hself].
      rewrite Hans. intros Hh. apply healthy_test in Hh. congruence.
Qed.

End Keepalive.


(* ------------------------------------------------------------------ *)
(** ** The login negotiator *)

Section Login.

Variable net : Network.

(** [__login] as one case analysis on what the scraping finds and what
    the network answers. *)
Lemma login_eq response w :
  login net response w =
  match Re.search Re.base_url_at (url response) with
  | None => Exits 1 (note ERROR "Cound not find base URL via regex match. Exiting" w)
  | Some base =>
    match Re.search Re.magic_at (text response) with
    | None => Exits 1 (note ERROR "Could not find magic value via regex match. Exiting" w)
    | Some magic =>
      let post := post_request base (login_data (parser (self w)) magic) in
      let w1 := record post w in
      match net (List.length (requested w)) post with
      | Fails => Returns (false, None) (note ERROR ("Cannot open URL: " ++ base) w1)
      | Responds r1 =>
        if negb (status_code r1 =? 200) then Returns (false, Some r1) w1
        else
          match Re.search Re.redirect_at (text r1) with
          | None =>
              Exits 1 (note ERROR "Invalid username/password combination. Exiting" w1)
          | Some url2 =>
            let w2 := record (get_request url2) w1 in
            match net (List.length (requested w1)) (get_request url2) with
            | Fails => Raises RequestException w2
            | Responds r2 =>
              if negb (status_code r2 =? 200)
              then Returns (false, Some r2)
                     (note ERROR "Failed to fetch keepalive webpage" w2)
              else Returns (true, Some r2)
                     (with_logout_url (replace "keepalive" "logout" url2)
                        (with_logged_in true
                           (note INFO "Successfully logged in" w2)))
            end
          end
      end
    end
  end.
Proof.
  unfold login. unfold_monad. cbv zeta.
  destruct (Re.search Re.base_url_at _) as [base|]; [|reflexivity].
  destruct (Re.search Re.magic_at _) as [magic|]; [|reflexivity].
  destruct (net _ (post_request _ _)) as [|r1]; [reflexivity|].
  destruct (negb (status_code r1 =? 200)); [reflexivity|].
  destruct (Re.search Re.redirect_at _) as [url2|]; [|reflexivity].
  destruct (net _ (get_request url2)) as [|r2]; [reflexivity|].
  now destruct (negb (status_code r2 =? 200)).
Qed.

End Login.

(* ------------------------------------------------------------------ *)
(** ** Scraping *)

Lemma append_assoc (a b c : string) : (a ++ b) ++ c = a ++ b ++ c.
Proof. induction a as [|x a IH]; simpl; [reflexivity | now rewrite IH]. Qed.

Lemma strip_sound lit : forall s rest, Re.strip lit s = Some rest -> s = lit ++ rest.
Proof.
  induction lit as [|a lit IH]; intros s rest; simpl.
  - now intros [= ->].
  - destruct s as [|b s]; [discriminate|].
    destruct (Ascii.eqb a b) eqn:Hab; [|discriminate].
    apply Ascii.eqb_eq in Hab. subst b. intros H. now rewrite (IH _ _ H).
Qed.

Lemma strip_app lit rest : Re.strip lit (lit ++ rest) = Some rest.
Proof.
  induction lit as [|a lit IH]; simpl; [reflexivity|].
  now rewrite Ascii.eqb_refl.
Qed.

Lemma span_sound f : forall s a b, Re.span f s = (a, b) -> s = a ++ b.
Proof.
  induction s as [|c s IH]; intros a b; simpl.
  - now intros [= <- <-].
  - destruct (f c).
    + destruct (Re.span f s) as [a' b']. intros [= <- <-]. simpl. now rewrite (IH a' b').
    + now intros [= <- <-].
Qed.

Lemma span_class f : forall s a b, Re.span f s = (a, b) -> Re.every f a = true.
Proof.
  induction s as [|c s IH]; intros a b; simpl.
  - now intros [= <- <-].
  - destruct (f c) eqn:Hc.
    + destruct (Re.span f s) as [a' b']. intros [= <- <-]. simpl.
      now rewrite Hc, (IH a' b').
    + now intros [= <- <-].
Qed.

(** A greedy class stops exactly at the first character outside it. *)
Lemma span_every f x c rest :
  Re.every f x = true -> f c = false ->
  Re.span f (x ++ String c rest) = (x, String c rest).
Proof.
  intros Hx Hc. induction x as [|a x IH]; simpl in *.
  - now rewrite Hc.
  - apply andb_true_iff in Hx as [Ha Hx]. now rewrite Ha, (IH Hx).
Qed.

Lemma search_sound {A} (m : string -> option A) : forall s x,
  Re.search m s = Some x -> exists pre rest, s = pre ++ rest /\ m rest = Some x.
Proof.
  induction s as [|c s IH]; intros x; simpl.
  - destruct (m EmptyString) eqn:Hm; [|discriminate].
    intros [= <-]. now exists EmptyString, EmptyString.
  - destruct (m (String c s)) eqn:Hm.
    + intros [= <-]. now exists EmptyString, (String c s).
    + intros H. destruct (IH x H) as (pre & rest & -> & Hrest).
      now exists (String c pre), rest.
Qed.

(** [re.search] passes over the positions where the pattern does not match. *)
Lemma search_skip {A} (m : string -> option A) pre : forall rest,
  Re.no_match_before m (String.length pre) (pre ++ rest) = true ->
  Re.search m (pre ++ rest) = Re.search m rest.
Proof.
  induction pre as [|c pre IH]; intros rest; simpl; [reflexivity|].
  destruct (m (String c (pre ++ rest))); [discriminate|]. apply IH.
Qed.

Lemma search_here {A} (m : string -> option A) s x :
  m s = Some x -> Re.search m s = Some x.
Proof. intros H. destruct s; simpl; now rewrite H. Qed.

Lemma magic_at_sound s token :
  Re.magic_at s = Some token ->
  token <> EmptyString /\ Re.every Re.is_alnum token = true /\
  exists post, s = Re.MAGIC_FIELD ++ token ++ Re.q ++ post.
Proof.
  unfold Re.magic_at.
  destruct (Re.strip Re.MAGIC_FIELD s) as [rest|] eqn:Hstrip; [|discriminate].
  destruct (Re.span Re.is_alnum rest) as [tok rest'] eqn:Hspan.
  destruct tok as [|t tok]; [discriminate|].
  destruct rest' as [|c post]; [discriminate|].
  destruct (Ascii.eqb c Re.quote) eqn:Hc; [|discriminate].
  apply Ascii.eqb_eq in Hc. subst c. intros [= <-].
  split; [discriminate|]. split; [exact (span_class _ _ _ _ Hspan)|].
  exists post. rewrite (strip_sound _ _ _ Hstrip), (span_sound _ _ _ _ Hspan). reflexivity.
Qed.

Lemma magic_at_complete x post :
  x <> EmptyString -> Re.every Re.is_alnum x = true ->
  Re.magic_at (Re.MAGIC_FIELD ++ x ++ Re.q ++ post) = Some x.
Proof.
  intros Hne Hx. unfold Re.magic_at. rewrite strip_app.
  change (Re.q ++ post) with (String Re.quote post).
  rewrite (span_every Re.is_alnum x Re.quote post Hx eq_refl).
  destruct x as [|a x]; [contradiction|].
  now rewrite Ascii.eqb_refl.
Qed.

(** A page on which the pattern finds a token contains the field with that
    token as its value, and the token is a non-empty alphanumeric run. *)
Lemma search_magic_sound html token :
  Re.search Re.magic_at html = Some token ->
  token <> EmptyString /\ Re.every Re.is_alnum token = true /\
  exists pre post, html = pre ++ Re.MAGIC_FIELD ++ token ++ Re.q ++ post.
Proof.
  intros H. apply search_sound in H as (pre & rest & -> & Hrest).
  apply magic_at_sound in Hrest as (Hne & Hclass & post & ->).
  split; [exact Hne|]. split; [exact Hclass|]. now exists pre, post.
Qed.

(** A literal that occurs in [s] is found by [re.search]. *)
Lemma search_strip_complete lit pre : forall post,
  Re.search (Re.strip lit) (pre ++ lit ++ post) <> None.
Proof.
  induction pre as [|c pre IH]; intros post.
  - simpl. now rewrite (search_here _ _ post (strip_app lit post)).
  - simpl. destruct (Re.strip lit (String c (pre ++ lit ++ post))); [discriminate|].
    apply IH.
Qed.

Lemma replace_nonempty old c new s :
  s <> EmptyString -> replace old (String c new) s <> EmptyString.
Proof.
  destruct s as [|a s]; [contradiction|]. intros _.
  unfold replace. simpl. destruct old as [|o old]; simpl.
  - discriminate.
  - destruct (Ascii.ascii_dec o a); [destruct (prefix old s)|]; discriminate.
Qed.

(* ------------------------------------------------------------------ *)
(** ** [run] around [__login] *)

Lemma run_step net fuel w :
  run net (S fuel) w = bind (run_body net fuel) (fun _ => run net fuel) w.
Proof. reflexivity. Qed.

(** The iteration of [run] up to the call of [__login]. *)
Lemma run_body_reaches_login net fuel w0 r0 w1 url1 r1 :
  state_check net fuel w0 = Returns (false, r0) w1 ->
  Re.search Re.redirect_at (text r0) = Some url1 ->
  net (List.length (requested w1)) (get_request url1) = Responds r1 ->
  status_code r1 = 200 ->
  run_body net fuel w0 =
  bind (login net r1) (after_login net fuel)
    (record (get_request url1) (note INFO "Not logged in" w1)).
Proof.
  intros Hprobe Hscript Hans H200.
  unfold run_body. unfold bind at 1. rewrite Hprobe. cbv beta iota. rewrite Hscript.
  unfold bind at 1. unfold ret at 1. unfold bind at 1. unfold Console.log at 1, emit at 1.
  unfold bind at 1. unfold requests_get at 1, send at 1.
  rewrite requested_note, Hans, H200. reflexivity.
Qed.

(** An iteration that ends in [continue] hands over to the next one, which
    starts with the prober. *)
Lemma run_continue net fuel w0 w' :
  run_body net fuel w0 = Returns tt w' -> run net (S fuel) w0 = run net fuel w'.
Proof. intros H. rewrite run_step. unfold bind. now rewrite H. Qed.

(** [exit] inside an iteration ends [run]. *)
Lemma run_exit net fuel w0 c w' :
  run_body net fuel w0 = Exits c w' -> run net (S fuel) w0 = Exits c w'.
Proof. intros H. rewrite run_step. unfold bind. now rewrite H. Qed.

(** Read a field of a world built by [note], [record] and [asleep]. *)
Ltac world_simpl :=
  repeat first
    [ rewrite self_note | rewrite requested_note | rewrite slept_note
    | progress cbn [self requested slept console record asleep with_logged_in
                    with_logout_url with_self] ].

(** The prober on a network that answers its first request with status
    200. *)
Lemma state_check_first net fuel w r :
  net (List.length (requested w)) canary = Responds r ->
  status_code r = 200 ->
  state_check net (S fuel) w =
  Returns ((url r =? ONE_ONE_ONE_ONE_HTTPS)%string, r)
    (record canary (note INFO "Checking state" w)).
Proof.
  intros Hans H200. rewrite state_check_eq. simpl. unfold bind.
  rewrite state_check_body_eq, requested_note, Hans, H200. reflexivity.
Qed.


(* ------------------------------------------------------------------ *)
(** ** Claims about the login negotiator *)



(** C6: on a successful login (the credential POST answered with status 200
    and a script redirect, the GET of the redirect target answered with
    status 200) [__login] returns [(True, response)] with [logged_in] set and
    [logout_url] the followed URL in which keepalive is replaced by logout;
    [run] then polls the URL of that last response in the keepalive loop.
    The session URL https://gw/keepalive?id=1 gives the logout URL
    https://gw/logout?id=1, and a full cycle against a gateway that accepts
    any credentials is in the keepalive loop, logged in, with that logout
    URL. *)
Theorem login_success net response w base magic r1 url2 r2 :
  Re.search Re.base_url_at (url response) = Some base ->
  Re.search Re.magic_at (text response) = Some magic ->
  let post := post_request base (login_data (parser (self w)) magic) in
  net (List.length (requested w)) post = Responds r1 ->
  status_code r1 = 200 ->
  Re.search Re.redirect_at (text r1) = Some url2 ->
  net (S (List.length (requested w))) (get_request url2) = Responds r2 ->
  status_code r2 = 200 ->
  (exists w',
     login net response w = Returns (true, Some r2) w' /\
     logged_in (self w') = true /\
     logout_url (self w') = replace "keepalive" "logout" url2 /\
     requested w' = (requested w ++ [post; get_request url2])%list /\
     forall fuel, after_login net fuel (true, Some r2) w' = keepalive net fuel (url r2) w') /\
  replace "keepalive" "logout" "https://gw/keepalive?id=1" = "https://gw/logout?id=1" /\
  (exists w',
     run_body (Gateway.gateway 9) 3 (init Gateway.args) = OutOfFuel w' /\
     logged_in (self w') = true /\
     logout_url (self w') = "https://gw/logout?id=1" /\
     skipn 4 (requested w') = repeat (get_request "https://gw/keepalive?id=1") 3).
Proof.
  intros Hbase Hmagic post Hpost H1 Hscript Hget H2.
  split; [|split; [reflexivity | eexists; repeat split]].
  pose proof (login_eq net response w) as Heq.
  rewrite Hbase, Hmagic in Heq. cbv zeta in Heq. fold post in Heq.
  rewrite Hpost, H1, Hscript, length_requested_record, Hget, H2 in Heq. simpl in Heq.
  eexists. split; [exact Heq|].
  split; [reflexivity|]. split; [reflexivity|]. split.
  - unfold with_logout_url, with_logged_in, with_self. simpl.
    rewrite requested_note. simpl. now rewrite <- app_assoc.
  - reflexivity.
Qed.

Lemma login_success_witness :
  exists w',
    login (Gateway.gateway 9) Gateway.form (init Gateway.args)
      = Returns (true, Some Gateway.session) w' /\
    logged_in (self w') = true /\
    logout_url (self w') = "https://gw/logout?id=1".
Proof.
  destruct (login_success (Gateway.gateway 9) Gateway.form (init Gateway.args)
              "https://gw/" "0a1b" Gateway.accepted Gateway.keepalive_url Gateway.session
              eq_refl eq_refl eq_refl eq_refl eq_refl eq_refl eq_refl)
    as [(w' & Hlogin & Hin & Hout & _) _].
  exists w'. split; [exact Hlogin|]. split; [exact Hin|]. exact Hout.
Defined.

(** C8: each of the three fatal scrape failures ends [__login], and with it
    [run] and the process, in [exit(code=1)], with no request made after the
    failure: no base URL in the URL of the portal response, no magic token in
    the portal page, no script redirect in a 200 answer to the credentials;
    in the last case the error logged is the invalid username/password
    message. *)
Theorem fatal_scrape_failures net response w :
  (Re.search Re.base_url_at (url response) = None ->
   login net response w =
     Exits 1 (note ERROR "Cound not find base URL via regex match. Exiting" w)) /\
  (forall base,
   Re.search Re.base_url_at (url response) = Some base ->
   Re.search Re.magic_at (text response) = None ->
   login net response w =
     Exits 1 (note ERROR "Could not find magic value via regex match. Exiting" w)) /\
  (forall base magic r1,
   Re.search Re.base_url_at (url response) = Some base ->
   Re.search Re.magic_at (text response) = Some magic ->
   let post := post_request base (login_data (parser (self w)) magic) in
   net (List.length (requested w)) post = Responds r1 ->
   status_code r1 = 200 ->
   Re.search Re.redirect_at (text r1) = None ->
   login net response w =
     Exits 1 (note ERROR "Invalid username/password combination. Exiting" (record post w))) /\
  (forall c w',
   login net response w = Exits c w' ->
   c = 1 /\
   exit_status (login net response w) = Some 1 /\
   forall fuel w0,
     run_body net fuel w0 = bind (login net response) (after_login net fuel) w ->
     run net (S fuel) w0 = Exits 1 w').
Proof.
  pose proof (login_eq net response w) as Heq.
  split; [|split; [|split]].
  - intros Hbase. now rewrite Hbase in Heq.
  - intros base Hbase Hmagic. now rewrite Hbase, Hmagic in Heq.
  - intros base magic r1 Hbase Hmagic post Hpost H1 Hscript.
    rewrite Hbase, Hmagic in Heq. cbv zeta in Heq. fold post in Heq.
    now rewrite Hpost, H1, Hscript in Heq.
  - intros c w' Hexit.
    assert (c = 1) as ->.
    { rewrite Heq in Hexit. clear Heq.
      destruct (Re.search Re.base_url_at _); [|now injection Hexit].
      destruct (Re.search Re.magic_at _); [|now injection Hexit].
      cbv zeta in Hexit.
      destruct (net _ (post_request _ _)) as [|r1]; [discriminate|].
      destruct (negb (status_code r1 =? 200)); [discriminate|].
      destruct (Re.search Re.redirect_at _) as [url2|]; [|now injection Hexit].
      destruct (net _ (get_request url2)) as [|r2]; [discriminate|].
      destruct (negb (status_code r2 =? 200)); discriminate. }
    split; [reflexivity|]. split; [now rewrite Hexit|].
    intros fuel w0 Hbody. apply run_exit. rewrite Hbody. unfold bind. now rewrite Hexit.
Qed.

Lemma fatal_scrape_failures_witness :
  login Gateway.rejecting Gateway.form (init Gateway.args) =
    Exits 1
      (mkWorld (self (init Gateway.args))
         [post_request "https://gw/" (login_data Gateway.args "0a1b")]
         [(ERROR, "Invalid username/password combination. Exiting")]
         []) /\
  run Gateway.rejecting 4 (init Gateway.args) =
    Exits 1
      (mkWorld (self (init Gateway.args))
         [canary; get_request "https://gw/fgtauth?0a1b" ;
          post_request "https://gw/" (login_data Gateway.args "0a1b")]
         [(INFO, "Checking state"); (INFO, "Not logged in");
          (ERROR, "Invalid username/password combination. Exiting")]
         []).
Proof.
  split.
  - exact (proj1 (proj2 (proj2 (fatal_scrape_failures Gateway.rejecting Gateway.form
                                  (init Gateway.args))))
             "https://gw/" "0a1b" Gateway.denied eq_refl eq_refl eq_refl eq_refl eq_refl).
  - reflexivity.
Defined.

(** C4 (as amended): a page that contains no magic field makes [__login]
    end in [exit(code=1)] before any request; on a page whose leftmost
    match of the pattern is the magic field with value [x], a non-empty run
    of ASCII letters and digits, the token found is exactly [x], and it is
    the magic value of the credential POST; and whatever token is found is a
    non-empty run of ASCII letters and digits that is the value of a magic
    field of the page. *)
Theorem magic_extraction net response w :
  ((forall pre x post, text response <> pre ++ Re.MAGIC_FIELD ++ x ++ Re.q ++ post) ->
   exists w', login net response w = Exits 1 w' /\ requested w' = requested w) /\
  (forall pre x post,
   text response = pre ++ Re.MAGIC_FIELD ++ x ++ Re.q ++ post ->
   x <> EmptyString ->
   Re.every Re.is_alnum x = true ->
   Re.no_match_before Re.magic_at (String.length pre) (text response) = true ->
   Re.search Re.magic_at (text response) = Some x /\
   forall base,
     Re.search Re.base_url_at (url response) = Some base ->
     exists rest,
       requested (world_of (login net response w)) =
       (requested w ++ post_request base (login_data (parser (self w)) x) :: rest)%list) /\
  (forall token,
   Re.search Re.magic_at (text response) = Some token ->
   token <> EmptyString /\ Re.every Re.is_alnum token = true /\
   exists pre post, text response = pre ++ Re.MAGIC_FIELD ++ token ++ Re.q ++ post).
Proof.
  pose proof (login_eq net response w) as Heq.
  split; [|split; [|apply search_magic_sound]].
  - intros Hnone.
    assert (Hmagic : Re.search Re.magic_at (text response) = None).
    { destruct (Re.search Re.magic_at (text response)) as [token|] eqn:Hs; [|reflexivity].
      apply search_magic_sound in Hs as (_ & _ & pre & post & Hs). now apply Hnone in Hs. }
    rewrite Hmagic in Heq.
    destruct (Re.search Re.base_url_at (url response));
      eexists; (split; [exact Heq | apply requested_note]).
  - intros pre x post Htext Hne Halnum Hleft.
    assert (Hmagic : Re.search Re.magic_at (text response) = Some x).
    { rewrite Htext in Hleft |- *. rewrite (search_skip _ _ _ Hleft).
      apply search_here. now apply magic_at_complete. }
    split; [exact Hmagic|].
    intros base Hbase. rewrite Heq, Hbase, Hmagic. cbv zeta.
    destruct (net _ (post_request _ _)) as [|r1].
    { exists []. simpl. now rewrite requested_note. }
    destruct (negb (status_code r1 =? 200)).
    { now exists []. }
    destruct (Re.search Re.redirect_at _) as [url2|].
    2:{ exists []. simpl. now rewrite requested_note. }
    destruct (net _ (get_request url2)) as [|r2].
    { exists [get_request url2]. simpl. now rewrite <- app_assoc. }
    destruct (negb (status_code r2 =? 200)); exists [get_request url2]; simpl;
      rewrite requested_note; simpl; now rewrite <- app_assoc.
Qed.

Lemma magic_extraction_witness :
  (exists w',
     login (Gateway.gateway 9) Gateway.unavailable (init Gateway.args) = Exits 1 w' /\
     requested w' = requested (init Gateway.args)) /\
  Re.search Re.magic_at (text Gateway.form) = Some "0a1b" /\
  forall base,
    Re.search Re.base_url_at (url Gateway.form) = Some base ->
    exists rest,
      requested (world_of (login (Gateway.gateway 9) Gateway.form (init Gateway.args))) =
      (requested (init Gateway.args)
         ++ post_request base (login_data (parser (self (init Gateway.args))) "0a1b") :: rest)%list.
Proof.
  split.
  - apply (proj1 (magic_extraction (Gateway.gateway 9) Gateway.unavailable
                    (init Gateway.args))).
    intros pre x post Htext.
    apply (search_strip_complete Re.MAGIC_FIELD pre (x ++ Re.q ++ post)).
    rewrite <- Htext. reflexivity.
  - apply (proj1 (proj2 (magic_extraction (Gateway.gateway 9) Gateway.form
                           (init Gateway.args)))
             "<input type=hidden " "0a1b" ">").
    + reflexivity.
    + discriminate.
    + reflexivity.
    + reflexivity.
Defined.

(** C4 (as stated) fails: this page contains the magic field with the value
    a-b, and no token is extracted from it; [__login] exits with code 1. *)
Lemma magic_value_not_extracted :
  text Gateway.odd_form =
    "<input type=hidden " ++ Re.MAGIC_FIELD ++ "a-b" ++ Re.q ++ ">" /\
  Re.search Re.magic_at (text Gateway.odd_form) <> Some "a-b" /\
  login (Gateway.gateway 9) Gateway.odd_form (init Gateway.args) =
    Exits 1
      (mkWorld (self (init Gateway.args)) []
         [(ERROR, "Could not find magic value via regex match. Exiting")] []).
Proof. split; [reflexivity|]. split; [discriminate | reflexivity]. Qed.

(* ------------------------------------------------------------------ *)
(** ** The keepalive loop under [run] *)




(* ------------------------------------------------------------------ *)
(** ** The invariant of the session *)

Lemma preserves_bind {A B} (I : World -> Prop) (m : M A) (f : A -> M B) :
  preserves I m -> (forall a, preserves I (f a)) -> preserves I (bind m f).
Proof.
  intros Hm Hf w Hw. specialize (Hm w Hw). unfold bind.
  destruct (m w) as [a w'|c w'|e w'|w']; simpl in *; auto.
  now apply Hf.
Qed.

(** What leaves the object alone keeps every property of the object. *)
Lemma preserves_frame {A} (m : M A) :
  (forall w, self (world_of (m w)) = self w) -> preserves logout_known m.
Proof. intros Hm w Hw. unfold logout_known in *. now rewrite Hm. Qed.

Lemma preserves_emit l msg : preserves logout_known (emit l msg).
Proof. apply preserves_frame. intros w. apply self_note. Qed.

Lemma preserves_send net req : preserves logout_known (send net req).
Proof. apply preserves_frame. intros w. unfold send. now destruct (net _ _). Qed.

Lemma preserves_state_check net fuel : preserves logout_known (state_check net fuel).
Proof. apply preserves_frame. intros w. apply state_check_frame. Qed.

Lemma preserves_keepalive net fuel u : preserves logout_known (keepalive net fuel u).
Proof.
  intros w Hw. pose proof (keepalive_spec net u fuel w) as Hspec.
  unfold logout_known in *.
  destruct (keepalive net fuel u w) as [a w'|c w'|e w'|w']; try contradiction; simpl.
  - rewrite Hspec. discriminate.
  - destruct Hspec as [-> _]. exact Hw.
  - rewrite Hspec. exact Hw.
Qed.

Lemma preserves_login net response :
  rejects_empty_url net -> preserves logout_known (login net response).
Proof.
  intros Hnet w Hw. rewrite login_eq.
  assert (Hnote : forall l msg w1, self w1 = self w -> logout_known (note l msg w1)).
  { intros l msg w1 Hself. unfold logout_known in *. now rewrite self_note, Hself. }
  destruct (Re.search Re.base_url_at _) as [base|]; [|now apply Hnote].
  destruct (Re.search Re.magic_at _) as [magic|]; [|now apply Hnote].
  cbv zeta.
  destruct (net _ (post_request _ _)) as [|r1]; [now apply Hnote|].
  destruct (negb (status_code r1 =? 200)); [exact Hw|].
  destruct (Re.search Re.redirect_at _) as [url2|]; [|now apply Hnote].
  destruct (net _ (get_request url2)) as [|r2] eqn:Hget; [exact Hw|].
  destruct (negb (status_code r2 =? 200)); [now apply Hnote|].
  simpl. intros _. simpl. apply replace_nonempty.
  intros ->. exact (Hnet _ _ Hget).
Qed.

Lemma preserves_run_body net fuel :
  rejects_empty_url net -> preserves logout_known (run_body net fuel).
Proof.
  intros Hnet. unfold run_body.
  apply preserves_bind; [apply preserves_state_check|]. intros [status response].
  destruct status.
  - apply preserves_bind; [now apply preserves_frame|]. intros p.
    apply preserves_bind; [apply preserves_emit|]. intros _.
    apply preserves_frame. intros w. unfold sleep.
    destruct (_ <? 0); [reflexivity|]. now destruct (SLEEP_OVERFLOW <=? _).
  - apply preserves_bind.
    { destruct (Re.search Re.redirect_at _); now apply preserves_frame. }
    intros url1.
    apply preserves_bind; [apply preserves_emit|]. intros _.
    apply preserves_bind; [apply preserves_send|]. intros r1.
    destruct (negb (status_code r1 =? 200)); [apply preserves_emit|].
    apply preserves_bind; [now apply preserves_login|]. intros [st [r2|]]; simpl.
    + destruct (negb st); [now apply preserves_frame | apply preserves_keepalive].
    + destruct (negb st); now apply preserves_frame.
Qed.

(** C1 (as amended): the session starts not logged in with an empty logout
    URL, and at every point where the prober, the login negotiator, the
    keepalive loop or [run] itself stops (return, exit or exception),
    [logged_in] true implies a non-empty [logout_url], on a network whose
    client answers no request for the empty URL. *)
Theorem logout_known_invariant net :
  rejects_empty_url net ->
  (forall p, logged_in (self (init p)) = false /\
             logout_url (self (init p)) = EmptyString /\
             logout_known (init p)) /\
  (forall fuel, preserves logout_known (state_check net fuel)) /\
  (forall response, preserves logout_known (login net response)) /\
  (forall fuel u, preserves logout_known (keepalive net fuel u)) /\
  (forall fuel, preserves logout_known (run net fuel)).
Proof.
  intros Hnet. split; [|split; [|split; [|split]]].
  - intros p. repeat split. discriminate.
  - apply preserves_state_check.
  - intros response. now apply preserves_login.
  - apply preserves_keepalive.
  - induction fuel as [|fuel IH]; simpl.
    + now apply preserves_frame.
    + apply preserves_bind; [now apply preserves_run_body | intros _; exact IH].
Qed.

Lemma gateway_rejects_empty_url lifetime : rejects_empty_url (Gateway.gateway lifetime).
Proof.
  intros n r. unfold Gateway.gateway. destruct (n <? lifetime)%nat; discriminate.
Qed.

Lemma logout_known_invariant_witness :
  logout_known (world_of (run (Gateway.gateway 5) 4 (init Gateway.args))).
Proof.
  destruct (logout_known_invariant (Gateway.gateway 5) (gateway_rejects_empty_url 5))
    as (Hinit & _ & _ & _ & Hrun).
  apply Hrun. apply Hinit.
Defined.

(** C1 (as stated) fails: after a login and the loss of the session, the
    keepalive loop has returned with [logged_in] false and the logout URL
    still in place. *)
Lemma logout_url_outlives_session :
  session_invariant Gateway.online /\
  (exists w',
     keepalive Gateway.down 1 Gateway.keepalive_url Gateway.online = Returns tt w' /\
     ~ session_invariant w') /\
  (exists w',
     run_body (Gateway.gateway 5) 3 (init Gateway.args) = Returns tt w' /\
     logged_in (self w') = false /\
     logout_url (self w') = "https://gw/logout?id=1" /\
     ~ session_invariant w').
Proof.
  split; [|split].
  - split; [reflexivity | discriminate].
  - eexists. split; [reflexivity|].
    intros [H _]. simpl in H. discriminate H. discriminate.
  - eexists. split; [reflexivity|]. split; [reflexivity|]. split; [reflexivity|].
    intros [H _]. simpl in H. discriminate H. discriminate.
Qed.

(* ------------------------------------------------------------------ *)
(** ** More on scraping *)

Lemma append_nil_r (s : string) : s ++ EmptyString = s.
Proof. induction s as [|c s IH]; simpl; [reflexivity | now rewrite IH]. Qed.

Lemma span_at_line_end x rest :
  Re.every Re.is_dot x = true -> at_line_end rest ->
  Re.span Re.is_dot (x ++ rest) = (x, rest).
Proof.
  intros Hx Hrest. destruct rest as [|c rest].
  - rewrite append_nil_r. clear Hrest.
    induction x as [|a x IH]; simpl in *; [reflexivity|].
    apply andb_true_iff in Hx as [Ha Hx]. now rewrite Ha, (IH Hx).
  - simpl in Hrest. subst c. now apply span_every.
Qed.

Lemma every_app f x y :
  Re.every f (x ++ y) = Re.every f x && Re.every f y.
Proof.
  induction x as [|a x IH]; simpl; [reflexivity|].
  now rewrite IH, andb_assoc.
Qed.

Lemma every_weaken (f g : ascii -> bool) s :
  (forall c, f c = true -> g c = true) -> Re.every f s = true -> Re.every g s = true.
Proof.
  intros Hfg. induction s as [|c s IH]; simpl; [reflexivity|].
  intros H. apply andb_true_iff in H as [Hc Hs].
  now rewrite (Hfg c Hc), (IH Hs).
Qed.

Lemma until_last_none q s :
  Re.every (fun c => negb (Ascii.eqb c q)) s = true -> Re.until_last q s = None.
Proof.
  induction s as [|c s IH]; simpl; [reflexivity|].
  intros H. apply andb_true_iff in H as [Hc Hs]. rewrite (IH Hs).
  apply negb_true_iff in Hc. now rewrite Hc.
Qed.

(** The greedy group gives back everything before the last quote. *)
Lemma until_last_app q x tail :
  Re.until_last q tail = None ->
  Re.until_last q (x ++ String q tail) = Some x.
Proof.
  intros Htail. induction x as [|a x IH]; simpl.
  - now rewrite Htail, Ascii.eqb_refl.
  - now rewrite IH.
Qed.

Lemma until_last_sound q : forall s t,
  Re.until_last q s = Some t -> exists tail, s = t ++ String q tail.
Proof.
  induction s as [|c s IH]; intros t; simpl; [discriminate|].
  destruct (Re.until_last q s) as [t'|] eqn:Hs.
  - intros [= <-]. destruct (IH t' eq_refl) as (tail & ->). now exists tail.
  - destruct (Ascii.eqb c q) eqn:Hc; [|discriminate].
    apply Ascii.eqb_eq in Hc. subst c. intros [= <-]. now exists s.
Qed.

Lemma every_until_last f q : forall s t,
  Re.every f s = true -> Re.until_last q s = Some t -> Re.every f t = true.
Proof.
  induction s as [|c s IH]; intros t; simpl; [discriminate|].
  intros H. apply andb_true_iff in H as [Hc Hs].
  destruct (Re.until_last q s) as [t'|] eqn:Hq.
  - intros [= <-]. simpl. now rewrite Hc, (IH t' Hs eq_refl).
  - destruct (Ascii.eqb c q); [|discriminate]. now intros [= <-].
Qed.

Lemma search_base_url_sound s base :
  Re.search Re.base_url_at s = Some base ->
  exists pre host post,
    s = pre ++ base ++ post /\
    base = "https://" ++ host ++ "/" /\
    Re.every Re.is_host_char host = true.
Proof.
  intros H. apply search_sound in H as (pre & tail & -> & Hat).
  unfold Re.base_url_at in Hat.
  destruct (Re.strip "https://" tail) as [rest|] eqn:Hstrip; [|discriminate].
  destruct (Re.span Re.is_host_char rest) as [host rest'] eqn:Hspan.
  destruct rest' as [|c post]; [discriminate|].
  destruct (Ascii.eqb c "/") eqn:Hc.
  2:{ apply Ascii.eqb_neq in Hc. destruct c as [[] [] [] [] [] [] [] []];
      try discriminate Hat. now contradiction Hc. }
  apply Ascii.eqb_eq in Hc. subst c. injection Hat as <-.
  exists pre, host, post. split; [|split].
  - rewrite (strip_sound _ _ _ Hstrip), (span_sound _ _ _ _ Hspan).
    f_equal. simpl. do 8 f_equal. now rewrite append_assoc.
  - reflexivity.
  - exact (span_class _ _ _ _ Hspan).
Qed.

(** X1: the base URL that [__login] finds in a response URL is a part of
    that URL of the form https://host/ with the host made of lower-case
    letters, digits, colons and dots; and a response URL that starts with
    such a part has exactly it as base URL, whatever follows. *)
Theorem base_url_extraction :
  (forall s base,
   Re.search Re.base_url_at s = Some base ->
   exists pre host post,
     s = pre ++ base ++ post /\
     base = "https://" ++ host ++ "/" /\
     Re.every Re.is_host_char host = true) /\
  (forall host rest,
   Re.every Re.is_host_char host = true ->
   Re.search Re.base_url_at ("https://" ++ host ++ "/" ++ rest)
   = Some ("https://" ++ host ++ "/")).
Proof.
  split; [exact search_base_url_sound|].
  intros host rest Hhost. apply search_here. unfold Re.base_url_at.
  change ("https://" ++ host ++ "/" ++ rest) with ("https://" ++ (host ++ String "/" rest)).
  rewrite strip_app, (span_every Re.is_host_char host "/" rest Hhost eq_refl).
  reflexivity.
Qed.

Lemma base_url_extraction_witness :
  Re.search Re.base_url_at "https://gateway.iitk.ac.in:1003/fgtauth?0a1b"
  = Some "https://gateway.iitk.ac.in:1003/".
Proof.
  exact (proj2 base_url_extraction "gateway.iitk.ac.in:1003" "fgtauth?0a1b" eq_refl).
Defined.

(** X2: in a text that has, at the leftmost position where the pattern
    matches, window.location= followed by a quoted string [target] and then
    no further quote on that line, the redirect target extracted is
    [target]. The group is greedy: [target] is everything up to the last
    quote of the line, quotes included. *)
Theorem redirect_extraction pre c target line rest :
  Re.no_match_before Re.redirect_at (String.length pre)
    (pre ++ "window" ++ String c (Re.LOCATION ++ target ++ Re.q ++ line ++ rest)) = true ->
  Re.is_dot c = true ->
  Re.every Re.is_dot target = true ->
  plain line = true ->
  at_line_end rest ->
  Re.search Re.redirect_at
    (pre ++ "window" ++ String c (Re.LOCATION ++ target ++ Re.q ++ line ++ rest))
  = Some target.
Proof.
  intros Hleft Hc Htarget Hline Hrest.
  rewrite (search_skip _ _ _ Hleft). apply search_here.
  unfold Re.redirect_at. rewrite strip_app, Hc, strip_app.
  assert (Hdot : Re.every Re.is_dot (target ++ Re.q ++ line) = true).
  { rewrite every_app, Htarget. simpl.
    apply (every_weaken _ Re.is_dot) in Hline; [exact Hline|].
    intros a Ha. now apply andb_true_iff in Ha as [Ha _]. }
  replace (target ++ Re.q ++ line ++ rest) with ((target ++ Re.q ++ line) ++ rest)
    by now rewrite !append_assoc.
  rewrite (span_at_line_end _ _ Hdot Hrest). simpl fst.
  apply until_last_app. apply until_last_none.
  apply (every_weaken _ _ _ (fun a Ha => proj2 (proj1 (andb_true_iff _ _) Ha)) Hline).
Qed.

Lemma redirect_extraction_witness :
  Re.search Re.redirect_at Gateway.accepted_text = Some Gateway.keepalive_url.
Proof.
  apply (redirect_extraction "<script>" "." Gateway.keepalive_url ";</script>" EmptyString);
    first [reflexivity | exact I].
Defined.

(** X3: whatever redirect target is extracted from a text stands in it
    between window.location= with an opening quote and a closing quote,
    and contains no newline. *)
Theorem redirect_extraction_sound s target :
  Re.search Re.redirect_at s = Some target ->
  Re.every Re.is_dot target = true /\
  exists pre c post,
    s = pre ++ "window" ++ String c (Re.LOCATION ++ target ++ Re.q ++ post).
Proof.
  intros H. apply search_sound in H as (pre & tail & -> & Hat).
  unfold Re.redirect_at in Hat.
  destruct (Re.strip "window" tail) as [[|c rest]|] eqn:Hw; try discriminate.
  destruct (Re.is_dot c); [|discriminate].
  destruct (Re.strip Re.LOCATION rest) as [rest'|] eqn:Hl; [|discriminate].
  destruct (Re.span Re.is_dot rest') as [line after] eqn:Hspan. simpl in Hat.
  split.
  - exact (every_until_last _ _ _ _ (span_class _ _ _ _ Hspan) Hat).
  - apply until_last_sound in Hat as (tail' & ->).
    exists pre, c, (tail' ++ after).
    rewrite (strip_sound _ _ _ Hw), (strip_sound _ _ _ Hl), (span_sound _ _ _ _ Hspan).
    now rewrite append_assoc.
Qed.

Lemma redirect_extraction_sound_witness :
  Re.every Re.is_dot Gateway.portal_url = true /\
  exists pre c post,
    Gateway.intercepted_text
    = pre ++ "window" ++ String c (Re.LOCATION ++ Gateway.portal_url ++ Re.q ++ post).
Proof.
  exact (redirect_extraction_sound Gateway.intercepted_text Gateway.portal_url eq_refl).
Defined.

Lemma prefix_strip old : forall s, prefix old s = true <-> Re.strip old s <> None.
Proof.
  induction old as [|a old IH]; intros s.
  - destruct s; simpl; (split; [discriminate | reflexivity]).
  - destruct s as [|b s]; simpl; [split; [discriminate | now intros H] |].
    destruct (Ascii.ascii_dec a b) as [Hab|Hab].
    + rewrite (proj2 (Ascii.eqb_eq a b) Hab). apply IH.
    + rewrite (proj2 (Ascii.eqb_neq a b) Hab). split; [discriminate | now intros H].
Qed.

Lemma prefix_none old s : Re.strip old s = None -> prefix old s = false.
Proof.
  intros H. destruct (prefix old s) eqn:Hp; [|reflexivity].
  apply prefix_strip in Hp. contradiction.
Qed.

(** After a replacement the scan goes on behind the occurrence. *)
Lemma replace_from_skip old new a : forall s,
  replace_from old new (String.length a) (a ++ s) = replace_from old new 0 s.
Proof. induction a as [|c a IH]; intros s; simpl; [reflexivity | apply IH]. Qed.

(** X4: a string in which [old] does not occur comes back unchanged from
    [replace]; a session URL without keepalive in it is its own logout
    URL. *)
Theorem replace_absent old new s :
  Re.search (Re.strip old) s = None -> replace old new s = s.
Proof.
  unfold replace. induction s as [|c s IH]; [reflexivity|].
  simpl Re.search. destruct (Re.strip old (String c s)) eqn:Hstrip; [discriminate|].
  intros Hs. cbn [replace_from]. rewrite (prefix_none _ _ Hstrip).
  now rewrite (IH Hs).
Qed.

Lemma replace_absent_witness :
  replace "keepalive" "logout" "https://gw/session?id=1" = "https://gw/session?id=1".
Proof. exact (replace_absent "keepalive" "logout" "https://gw/session?id=1" eq_refl). Defined.

(** X5: [replace] copies what stands before the first occurrence of a
    non-empty [old], puts [new] in its place and goes on with what stands
    behind it. *)
Theorem replace_first old new pre post :
  old <> EmptyString ->
  Re.no_match_before (Re.strip old) (String.length pre) (pre ++ old ++ post) = true ->
  replace old new (pre ++ old ++ post) = pre ++ new ++ replace old new post.
Proof.
  intros Hold. unfold replace. induction pre as [|c pre IH]; intros Hleft.
  - destruct old as [|o old]; [contradiction|].
    change (EmptyString ++ String o old ++ post) with (String o (old ++ post)).
    cbn [replace_from].
    assert (Hp : prefix (String o old) (String o (old ++ post)) = true).
    { apply prefix_strip. change (String o (old ++ post)) with (String o old ++ post).
      now rewrite strip_app. }
    rewrite Hp.
    replace (String.length (String o old) - 1)%nat with (String.length old)
      by (simpl; lia).
    now rewrite replace_from_skip.
  - simpl in Hleft.
    destruct (Re.strip old (String c (pre ++ old ++ post))) eqn:Hstrip; [discriminate|].
    change (String c pre ++ old ++ post) with (String c (pre ++ old ++ post)).
    cbn [replace_from]. rewrite (prefix_none _ _ Hstrip), (IH Hleft). reflexivity.
Qed.

Lemma replace_first_witness :
  replace "keepalive" "logout" "https://gw/keepalive?next=keepalive"
  = "https://gw/" ++ "logout" ++ replace "keepalive" "logout" "?next=keepalive".
Proof.
  apply (replace_first "keepalive" "logout" "https://gw/" "?next=keepalive").
  - discriminate.
  - reflexivity.
Defined.

(* ------------------------------------------------------------------ *)
(** ** Frame rules: what every method keeps *)

Section Frame.

Variable net : Network.
Variable I : World -> Prop.

Hypothesis I_note : forall l m w, I w -> I (note l m w).
Hypothesis I_get : forall u w, I w -> I (record (get_request u) w).
Hypothesis I_post : forall u d w, I w -> I (record (post_request u d) w).
Hypothesis I_logged_in : forall b w, I w -> I (with_logged_in b w).
Hypothesis I_logout_url : forall u w, I w -> I (with_logout_url u w).
Hypothesis I_retry : forall w, I w -> I (asleep (Parser.retry (parser (self w))) w).
Hypothesis I_keepalive : forall w, I w -> I (asleep (Parser.keepalive (parser (self w))) w).

Lemma frame_state_check_loop fuel : preserves I (state_check_loop net fuel).
Proof.
  induction fuel as [|fuel IH]; intros w Hw; [exact Hw|].
  simpl. unfold bind. rewrite state_check_body_eq.
  destruct (net _ canary) as [|r].
  - apply IH. now apply I_note, I_get.
  - destruct (status_code r =? 200); [now apply I_get|].
    apply IH. now apply I_get.
Qed.

Lemma frame_state_check fuel : preserves I (state_check net fuel).
Proof.
  intros w Hw. rewrite state_check_eq.
  pose proof (frame_state_check_loop fuel _ (I_note INFO "Checking state" w Hw)) as H.
  now destruct (state_check_loop net fuel _).
Qed.

Lemma frame_sleep z w : I (asleep z w) -> I (world_of (sleep z w)).
Proof.
  intros Hw. unfold sleep.
  destruct (z <? 0); [exact Hw|]. now destruct (SLEEP_OVERFLOW <=? z).
Qed.

Lemma frame_sleep_then {A} z (k : M A) w :
  I (asleep z w) -> preserves I k -> I (world_of ((sleep z ;;; k) w)).
Proof.
  intros Hw Hk. unfold bind, sleep.
  destruct (z <? 0); [exact Hw|].
  destruct (SLEEP_OVERFLOW <=? z); [exact Hw|]. now apply Hk.
Qed.

Lemma frame_keepalive fuel u : preserves I (keepalive net fuel u).
Proof.
  induction fuel as [|fuel IH]; intros w Hw; [exact Hw|].
  destruct (net (List.length (requested w)) (get_request u)) as [|r] eqn:Hans.
  - simpl. unfold bind. rewrite keepalive_body_eq. cbv zeta. rewrite Hans.
    now apply I_logged_in, I_note, I_get.
  - destruct ((status_code r =? 200) && (url r =? u)%string) eqn:Hok.
    + rewrite (keepalive_step_healthy net u w fuel r Hans) by now apply healthy_test.
      apply frame_sleep_then; [|exact IH].
      pose proof (I_keepalive (kept_alive u w)) as H.
      rewrite self_kept_alive in H. apply H. now apply I_note, I_get.
    + simpl. unfold bind. rewrite keepalive_body_eq. cbv zeta. rewrite Hans, Hok.
      now apply I_logged_in, I_note, I_get.
Qed.

Lemma frame_interupt_handler : preserves I (interupt_handler net).
Proof.
  intros w Hw. rewrite interupt_handler_eq.
  destruct (logged_in (self w)); [|now apply I_note].
  cbv zeta. destruct (net _ _) as [|r]; simpl.
  - now apply I_note, I_get.
  - destruct (status_code r =? 200); [apply I_note|]; now apply I_get.
Qed.

Lemma frame_login response : preserves I (login net response).
Proof.
  intros w Hw. rewrite login_eq.
  destruct (Re.search Re.base_url_at _) as [base|]; [|now apply I_note].
  destruct (Re.search Re.magic_at _) as [magic|]; [|now apply I_note].
  cbv zeta.
  destruct (net _ (post_request _ _)) as [|r1]; [now apply I_note, I_post|].
  destruct (negb (status_code r1 =? 200)); [now apply I_post|].
  destruct (Re.search Re.redirect_at _) as [url2|]; [|now apply I_note, I_post].
  destruct (net _ (get_request url2)) as [|r2]; [now apply I_get, I_post|].
  destruct (negb (status_code r2 =? 200)); simpl.
  - now apply I_note, I_get, I_post.
  - now apply I_logout_url, I_logged_in, I_note, I_get, I_post.
Qed.

Lemma frame_run_body fuel :
  (forall response, preserves I (login net response)) ->
  preserves I (run_body net fuel).
Proof.
  intros Hlogin. unfold run_body.
  apply preserves_bind; [apply frame_state_check|]. intros [status response].
  destruct status.
  - intros w Hw.
    change (I (world_of (sleep (Parser.retry (parser (self w)))
                           (note INFO ("Already logged in. Sleeping for "
                                       ++ str_of_int (Parser.retry (parser (self w)))) w)))).
    apply frame_sleep.
    pose proof (I_retry (note INFO
      ("Already logged in. Sleeping for " ++ str_of_int (Parser.retry (parser (self w)))) w))
      as H.
    rewrite self_note in H. apply H. now apply I_note.
  - apply preserves_bind.
    { destruct (Re.search Re.redirect_at _); intros w Hw; exact Hw. }
    intros url1.
    apply preserves_bind; [intros w Hw; now apply I_note|]. intros _.
    apply preserves_bind.
    { intros w Hw. unfold requests_get, send. destruct (net _ _); now apply I_get. }
    intros r1.
    destruct (negb (status_code r1 =? 200)); [intros w Hw; now apply I_note|].
    apply preserves_bind; [apply Hlogin|]. intros [st [r2|]]; simpl.
    + destruct (negb st); [intros w Hw; exact Hw | apply frame_keepalive].
    + destruct (negb st); intros w Hw; exact Hw.
Qed.

Lemma frame_run fuel :
  (forall response, preserves I (login net response)) ->
  preserves I (run net fuel).
Proof.
  intros Hlogin. induction fuel as [|fuel IH]; simpl.
  - intros w Hw. exact Hw.
  - apply preserves_bind; [now apply frame_run_body | intros _; exact IH].
Qed.

End Frame.

(* ------------------------------------------------------------------ *)
(** ** What a whole run keeps *)

(** X6: with verbose off, nothing is ever given to the console, neither by
    [run], however it goes and ends, nor by the interrupt handler. *)
Theorem quiet_console net fuel w :
  Parser.verbose (parser (self w)) = false ->
  console (world_of (run net fuel w)) = console w /\
  console (world_of (interupt_handler net w)) = console w.
Proof.
  intros Hquiet.
  set (I := fun w' => Parser.verbose (parser (self w')) = false /\ console w' = console w).
  assert (I_note : forall l m w', I w' -> I (note l m w')).
  { intros l m w' [Hv Hc]. unfold note. rewrite Hv. now split. }
  assert (I_get : forall u w', I w' -> I (record (get_request u) w')) by (intros u w' H; exact H).
  assert (I_post : forall u d w', I w' -> I (record (post_request u d) w'))
    by (intros u d w' H; exact H).
  assert (I_logged_in : forall b w', I w' -> I (with_logged_in b w')) by (intros b w' H; exact H).
  assert (I_logout_url : forall u w', I w' -> I (with_logout_url u w'))
    by (intros u w' H; exact H).
  assert (I_asleep : forall z w', I w' -> I (asleep z w')) by (intros z w' H; exact H).
  assert (Hw : I w) by now split.
  split.
  - apply (frame_run net I); auto.
    intros response. apply frame_login; auto.
  - apply (frame_interupt_handler net I); auto.
Qed.

Lemma quiet_console_witness :
  console (world_of (run (Gateway.gateway 5) 4 (init Gateway.quiet_args))) = [] /\
  console (world_of (interupt_handler (Gateway.gateway 5) (init Gateway.quiet_args))) = [].
Proof. exact (quiet_console (Gateway.gateway 5) 4 (init Gateway.quiet_args) eq_refl). Defined.




Lemma validate_args_intervals ns typed p rest :
  Parser.validate_args ns typed = Some (p, rest) ->
  Parser.retry p = (if Parser.ns_retry ns <? 0 then 60 else Parser.ns_retry ns) /\
  Parser.keepalive p = (if Parser.ns_keepalive ns <? 0 then 2200 else Parser.ns_keepalive ns) /\
  Parser.verbose p = Parser.ns_verbose ns.
Proof.
  unfold Parser.validate_args.
  destruct (Parser.ask (Parser.ns_username ns) typed) as [[user typed1]|]; [|discriminate].
  destruct (Parser.ask (Parser.ns_password ns) typed1) as [[pass typed2]|]; [|discriminate].
  intros [= <- _]. auto.
Qed.

(** X8: for arguments that went through [__validate_args], every
    [time.sleep] of a run is called with the retry or the keepalive
    interval, and never with a negative number. *)
Theorem sleeps_non_negative ns typed p rest net fuel :
  Parser.validate_args ns typed = Some (p, rest) ->
  Forall (fun z => (z = Parser.retry p \/ z = Parser.keepalive p) /\ 0 <= z)
    (slept (world_of (run net fuel (init p)))).
Proof.
  intros Hvalid.
  apply validate_args_intervals in Hvalid as (Hretry & Hkeep & _).
  assert (Hr : 0 <= Parser.retry p).
  { rewrite Hretry. destruct (Parser.ns_retry ns <? 0) eqn:H; [lia|].
    now apply Z.ltb_ge in H. }
  assert (Hk : 0 <= Parser.keepalive p).
  { rewrite Hkeep. destruct (Parser.ns_keepalive ns <? 0) eqn:H; [lia|].
    now apply Z.ltb_ge in H. }
  set (ok := fun z => (z = Parser.retry p \/ z = Parser.keepalive p) /\ 0 <= z).
  set (I := fun w => parser (self w) = p /\ Forall ok (slept w)).
  assert (I_note : forall l m w, I w -> I (note l m w)).
  { intros l m w [Hp Hs]. split; [now rewrite self_note | now rewrite slept_note]. }
  assert (I_get : forall u w, I w -> I (record (get_request u) w)) by (intros u w H; exact H).
  assert (I_post : forall u d w, I w -> I (record (post_request u d) w))
    by (intros u d w H; exact H).
  assert (I_logged_in : forall b w, I w -> I (with_logged_in b w)) by (intros b w H; exact H).
  assert (I_logout_url : forall u w, I w -> I (with_logout_url u w))
    by (intros u w H; exact H).
  assert (I_retry : forall w, I w -> I (asleep (Parser.retry (parser (self w))) w)).
  { intros w [Hp Hs]. split; [exact Hp|]. simpl. rewrite Hp.
    apply Forall_app. split; [exact Hs|]. constructor; [|constructor]. split; auto. }
  assert (I_keepalive : forall w, I w -> I (asleep (Parser.keepalive (parser (self w))) w)).
  { intros w [Hp Hs]. split; [exact Hp|]. simpl. rewrite Hp.
    apply Forall_app. split; [exact Hs|]. constructor; [|constructor]. split; auto. }
  assert (Hinit : I (init p)) by (split; [reflexivity | constructor]).
  refine (proj2 (frame_run net I I_note I_get I_logged_in I_retry I_keepalive fuel _ _ Hinit)).
  intros response. now apply frame_login.
Qed.

Lemma sleeps_non_negative_witness :
  Forall (fun z => (z = 60 \/ z = 7) /\ 0 <= z)
    (slept (world_of (run (Gateway.gateway 9) 4 (init (Parser.mk "user" "secret" true 60 7))))).
Proof.
  exact (sleeps_non_negative
           (Parser.mkNamespace None (Some "secret") true (-5) 7) ["user"]
           (Parser.mk "user" "secret" true 60 7) [] (Gateway.gateway 9) 4 eq_refl).
Defined.

(** X9: how the command line becomes the arguments of the run. Logging is
    off only when the verbose option was given the empty string: any other
    value, the word False included, leaves it on. An interval that is absent
    or negative becomes its default (60 and 2200 seconds); one that is zero or
    positive is kept. *)
Theorem parser_construction a typed p rest :
  Parser.validate_args (Parser.parse_args a) typed = Some (p, rest) ->
  (Parser.verbose p = false <-> Parser.arg_verbose a = Some EmptyString) /\
  (forall n, Parser.arg_retry a = Some n -> 0 <= n -> Parser.retry p = n) /\
  (forall n, Parser.arg_keepalive a = Some n -> 0 <= n -> Parser.keepalive p = n) /\
  (Parser.arg_retry a = None \/ (exists n, Parser.arg_retry a = Some n /\ n < 0) ->
   Parser.retry p = 60) /\
  (Parser.arg_keepalive a = None \/ (exists n, Parser.arg_keepalive a = Some n /\ n < 0) ->
   Parser.keepalive p = 2200).
Proof.
  intros Hvalid.
  apply validate_args_intervals in Hvalid as (-> & -> & ->).
  destruct a as [user pass verbose retry keepalive]. simpl.
  split; [|split; [|split; [|split]]].
  - destruct verbose as [[|c s]|]; simpl; split; intros H; try discriminate; reflexivity.
  - intros n -> Hn. simpl. apply Z.ltb_ge in Hn. now rewrite Hn.
  - intros n -> Hn. simpl. apply Z.ltb_ge in Hn. now rewrite Hn.
  - intros [->|(n & -> & Hn)]; simpl; [reflexivity|].
    apply Z.ltb_lt in Hn. now rewrite Hn.
  - intros [->|(n & -> & Hn)]; simpl; [reflexivity|].
    apply Z.ltb_lt in Hn. now rewrite Hn.
Qed.

Lemma parser_construction_witness :
  (Parser.verbose (Parser.mk "user" "secret" true 0 2200) = false <->
   Some "False" = Some EmptyString) /\
  Parser.retry (Parser.mk "user" "secret" true 0 2200) = 0 /\
  Parser.keepalive (Parser.mk "user" "secret" true 0 2200) = 2200.
Proof.
  destruct (parser_construction
              (Parser.mkArgv (Some "user") None (Some "False") (Some 0) (Some (-1)))
              ["secret"] (Parser.mk "user" "secret" true 0 2200) [] eq_refl)
    as (Hv & Hr & _ & _ & Hk).
  split; [exact Hv|]. split.
  - apply (Hr 0); [reflexivity | lia].
  - apply Hk. right. exists (-1). split; [reflexivity | lia].
Defined.

(* ------------------------------------------------------------------ *)
(** ** The interrupt handler, in full *)

(** X10: the interrupt handler never returns to the code it interrupted and
    leaves the object as it is. It makes no request when not logged in and
    exactly one, a GET to the logout URL, when logged in. It ends in
    [exit(code=0)] exactly when the authenticator is not logged in or the
    logout request is answered, whatever the status of the answer; otherwise
    it ends in an uncaught exception. *)
Theorem interupt_handler_outcome net w :
  let reply := net (List.length (requested w)) (get_request (logout_url (self w))) in
  (forall a w', interupt_handler net w <> Returns a w') /\
  self (world_of (interupt_handler net w)) = self w /\
  requested (world_of (interupt_handler net w)) =
    (if logged_in (self w)
     then requested w ++ [get_request (logout_url (self w))]
     else requested w)%list /\
  ((exists w', interupt_handler net w = Exits 0 w') <->
   (logged_in (self w) = false \/ exists r, reply = Responds r)) /\
  (forall c w', interupt_handler net w = Exits c w' -> c = 0).
Proof.
  intros reply. rewrite interupt_handler_eq. cbv zeta. fold reply.
  destruct (logged_in (self w)).
  - destruct reply as [|r] eqn:Hreply; cbn [world_of].
    + split; [discriminate|]. split; [now rewrite self_note|].
      split; [now rewrite requested_note|]. split; [|discriminate].
      split; [intros [w' H]; discriminate | intros [H|[r H]]; discriminate].
    + split; [discriminate|].
      split; [destruct (status_code r =? 200); [now rewrite self_note | reflexivity]|].
      split; [destruct (status_code r =? 200); [now rewrite requested_note | reflexivity]|].
      split; [|now intros c w' [= <- _]].
      split; [intros _; right; now exists r | intros _; eexists; reflexivity].
  - cbn [world_of]. split; [discriminate|]. split; [now rewrite self_note|].
    split; [now rewrite requested_note|]. split; [|now intros c w' [= <- _]].
    split; [intros _; now left | intros _; eexists; reflexivity].
Qed.

Lemma interupt_handler_outcome_witness :
  exists w', interupt_handler (Gateway.gateway 9) Gateway.online = Exits 0 w'.
Proof.
  apply (proj1 (proj2 (proj2 (proj2
           (interupt_handler_outcome (Gateway.gateway 9) Gateway.online))))).
  right. eexists. reflexivity.
Defined.

(* ------------------------------------------------------------------ *)
(** ** The keepalive loop, in full *)

Lemma repeat_snoc {A} (a : A) n : (repeat a n ++ [a])%list = repeat a (S n).
Proof. induction n as [|n IH]; simpl; [reflexivity | now rewrite IH]. Qed.

Lemma repeat_shift {A} (l : list A) a n :
  ((l ++ [a]) ++ repeat a n)%list = (l ++ repeat a (S n))%list.
Proof. now rewrite <- app_assoc. Qed.





(* ------------------------------------------------------------------ *)
(** ** [__login] and [run], in full *)

(** X13: when the GET of the page that holds the keepalive script target
    goes wrong after the credentials were accepted, [__login] does not log
    in: on a status other than 200 it logs the failure and returns
    [(False, response)]; on a transport failure, which it does not catch,
    it ends in an uncaught [RequestException]. Either way the object is left
    as it was. *)
Theorem login_keepalive_fetch_failure net response w base magic r1 url2 :
  Re.search Re.base_url_at (url response) = Some base ->
  Re.search Re.magic_at (text response) = Some magic ->
  let post := post_request base (login_data (parser (self w)) magic) in
  net (List.length (requested w)) post = Responds r1 ->
  status_code r1 = 200 ->
  Re.search Re.redirect_at (text r1) = Some url2 ->
  let reply := net (S (List.length (requested w))) (get_request url2) in
  not_ok reply ->
  let w2 := record (get_request url2) (record post w) in
  login net response w =
    match reply with
    | Fails => Raises RequestException w2
    | Responds r2 =>
        Returns (false, Some r2) (note ERROR "Failed to fetch keepalive webpage" w2)
    end /\
  self (world_of (login net response w)) = self w.
Proof.
  intros Hbase Hmagic post Hpost H1 Hscript reply Hreply w2.
  pose proof (login_eq net response w) as Heq.
  rewrite Hbase, Hmagic in Heq. cbv zeta in Heq. fold post in Heq.
  rewrite Hpost, H1, Hscript, length_requested_record in Heq. simpl negb in Heq.
  cbv iota in Heq. fold reply in Heq. fold w2 in Heq.
  rewrite Heq. destruct reply as [|r2].
  - split; reflexivity.
  - simpl in Hreply. apply Z.eqb_neq in Hreply. rewrite Hreply. simpl.
    split; [reflexivity | now rewrite self_note].
Qed.

Lemma login_keepalive_fetch_failure_witness :
  login (Gateway.gateway 1) Gateway.form (init Gateway.args) =
    Raises RequestException
      (record (get_request Gateway.keepalive_url)
         (record (post_request "https://gw/" (login_data Gateway.args "0a1b"))
            (init Gateway.args))) /\
  self (world_of (login (Gateway.gateway 1) Gateway.form (init Gateway.args)))
  = self (init Gateway.args).
Proof.
  apply (login_keepalive_fetch_failure (Gateway.gateway 1) Gateway.form (init Gateway.args)
           "https://gw/" "0a1b" Gateway.accepted Gateway.keepalive_url);
    first [reflexivity | exact I].
Defined.

(** X14: [__login] changes the object only when it returns [True], and it
    returns [True] only together with a response of status 200 and with
    [logged_in] set; in every other outcome (a [False] result, an exit, an
    exception) the object is exactly as before the call. *)
Theorem login_mutates_only_on_success net response w :
  (forall r w',
   login net response w = Returns (true, r) w' ->
   exists r2, r = Some r2 /\ status_code r2 = 200 /\
              logged_in (self w') = true /\ parser (self w') = parser (self w)) /\
  ((forall r w', login net response w <> Returns (true, r) w') ->
   self (world_of (login net response w)) = self w).
Proof.
  rewrite login_eq.
  destruct (Re.search Re.base_url_at _) as [base|];
    [|split; [discriminate | intros _; apply self_note]].
  destruct (Re.search Re.magic_at _) as [magic|];
    [|split; [discriminate | intros _; apply self_note]].
  cbv zeta.
  destruct (net _ (post_request _ _)) as [|r1];
    [split; [discriminate | intros _; cbn [world_of]; now rewrite self_note]|].
  destruct (negb (status_code r1 =? 200)); [split; [discriminate | reflexivity]|].
  destruct (Re.search Re.redirect_at _) as [url2|];
    [|split; [discriminate | intros _; cbn [world_of]; now rewrite self_note]].
  destruct (net _ (get_request url2)) as [|r2]; [split; [discriminate | reflexivity]|].
  destruct (negb (status_code r2 =? 200)) eqn:H2.
  - split; [discriminate | intros _; cbn [world_of]; now rewrite self_note].
  - split.
    + intros r w' [= <- <-]. exists r2.
      apply negb_false_iff, Z.eqb_eq in H2.
      repeat split; [exact H2|]. simpl. now rewrite self_note.
    + intros Hnever. now contradiction (Hnever (Some r2) _ eq_refl).
Qed.

Lemma login_mutates_only_on_success_witness :
  self (world_of (login Gateway.rejecting Gateway.form (init Gateway.args)))
  = self (init Gateway.args).
Proof.
  apply (proj2 (login_mutates_only_on_success Gateway.rejecting Gateway.form
                  (init Gateway.args))).
  intros r w'. discriminate.
Defined.



(** X16: when the page that intercepts the canary carries no script
    redirect, [run] does not retry: subscripting the failed match raises a
    [TypeError] that nothing catches, right after the one canary request, and
    the process ends with status 1. *)
Theorem run_intercepted_without_script net fuel w r0 :
  net (List.length (requested w)) canary = Responds r0 ->
  status_code r0 = 200 ->
  url r0 <> ONE_ONE_ONE_ONE_HTTPS ->
  Re.search Re.redirect_at (text r0) = None ->
  run net (S (S fuel)) w = Raises TypeError (record canary (note INFO "Checking state" w)) /\
  exit_status (run net (S (S fuel)) w) = Some 1.
Proof.
  intros Hans H200 Hurl Hscript.
  assert (Heq : run net (S (S fuel)) w
                = Raises TypeError (record canary (note INFO "Checking state" w))).
  { rewrite run_step. unfold bind at 1. unfold run_body. unfold bind at 1.
    rewrite (state_check_first net fuel w r0 Hans H200).
    apply String.eqb_neq in Hurl. rewrite Hurl. cbv beta iota. rewrite Hscript.
    reflexivity. }
  now rewrite Heq.
Qed.

Lemma run_intercepted_without_script_witness :
  run Gateway.blank 2 (init Gateway.args)
  = Raises TypeError (record canary (note INFO "Checking state" (init Gateway.args))) /\
  exit_status (run Gateway.blank 2 (init Gateway.args)) = Some 1.
Proof.
  apply (run_intercepted_without_script Gateway.blank 0 (init Gateway.args) Gateway.denied).
  - reflexivity.
  - reflexivity.
  - discriminate.
  - reflexivity.
Defined.

(** X17: when the GET of the captive portal page goes wrong, no login is
    attempted. On a status other than 200 [run] logs the failure and starts
    its next iteration, from the prober; a transport failure, which [run]
    does not catch here, ends it in an uncaught [RequestException]. *)
Theorem run_portal_fetch_failure net fuel w r0 url1 :
  net (List.length (requested w)) canary = Responds r0 ->
  status_code r0 = 200 ->
  url r0 <> ONE_ONE_ONE_ONE_HTTPS ->
  Re.search Re.redirect_at (text r0) = Some url1 ->
  let reply := net (S (List.length (requested w))) (get_request url1) in
  not_ok reply ->
  let w1 := record (get_request url1)
              (note INFO "Not logged in" (record canary (note INFO "Checking state" w))) in
  run net (S (S fuel)) w =
  match reply with
  | Fails => Raises RequestException w1
  | Responds _ =>
      run net (S fuel) (note ERROR "Failed to fetch captive portal webpage. Retrying" w1)
  end.
Proof.
  intros Hans H200 Hurl Hscript reply Hreply w1.
  rewrite run_step. unfold bind at 1. unfold run_body. unfold bind at 1.
  rewrite (state_check_first net fuel w r0 Hans H200).
  apply String.eqb_neq in Hurl. rewrite Hurl. cbv beta iota. rewrite Hscript.
  unfold bind at 1. unfold ret at 1. unfold bind at 1. unfold Console.log at 1, emit at 1.
  unfold bind at 1. unfold requests_get at 1, send at 1.
  rewrite requested_note, length_requested_record, requested_note. fold reply. fold w1.
  destruct reply as [|r1]; [reflexivity|].
  simpl in Hreply. apply Z.eqb_neq in Hreply. rewrite Hreply. reflexivity.
Qed.

Lemma run_portal_fetch_failure_witness :
  run Gateway.overloaded 2 (init Gateway.args) =
  run Gateway.overloaded 1
    (note ERROR "Failed to fetch captive portal webpage. Retrying"
       (record (get_request Gateway.portal_url)
          (note INFO "Not logged in"
             (record canary (note INFO "Checking state" (init Gateway.args)))))).
Proof.
  apply (run_portal_fetch_failure Gateway.overloaded 0 (init Gateway.args)
           Gateway.intercepted Gateway.portal_url).
  - reflexivity.
  - reflexivity.
  - discriminate.
  - reflexivity.
  - simpl. discriminate.
Defined.

(** X18: a full cycle. When the canary is intercepted by a page with a
    script redirect, the portal page it leads to is fetched and holds a base
    URL and a magic token, the credentials are accepted with a script
    redirect and its target is fetched, each with status 200, the iteration
    of [run] enters the keepalive loop on the URL of the last response, after
    these four requests and no sleep, logged in and with the logout URL
    derived from the script target. *)
Theorem run_full_cycle net fuel w r0 url1 r1 base magic r2 url2 r3 :
  let n := List.length (requested w) in
  let post := post_request base (login_data (parser (self w)) magic) in
  net n canary = Responds r0 ->
  status_code r0 = 200 ->
  url r0 <> ONE_ONE_ONE_ONE_HTTPS ->
  Re.search Re.redirect_at (text r0) = Some url1 ->
  net (S n) (get_request url1) = Responds r1 ->
  status_code r1 = 200 ->
  Re.search Re.base_url_at (url r1) = Some base ->
  Re.search Re.magic_at (text r1) = Some magic ->
  net (S (S n)) post = Responds r2 ->
  status_code r2 = 200 ->
  Re.search Re.redirect_at (text r2) = Some url2 ->
  net (S (S (S n))) (get_request url2) = Responds r3 ->
  status_code r3 = 200 ->
  exists w',
    run_body net (S fuel) w = keepalive net (S fuel) (url r3) w' /\
    logged_in (self w') = true /\
    logout_url (self w') = replace "keepalive" "logout" url2 /\
    parser (self w') = parser (self w) /\
    requested w' = (requested w ++ [canary; get_request url1; post; get_request url2])%list /\
    slept w' = slept w.
Proof.
  intros n post Hcanary H0 Hurl Hscript1 Hportal H1 Hbase Hmagic Hpost H2 Hscript2 Hget H3.
  pose proof (state_check_first net fuel w r0 Hcanary H0) as Hprobe.
  apply String.eqb_neq in Hurl. rewrite Hurl in Hprobe.
  assert (Hportal' : net (List.length (requested (record canary
                                        (note INFO "Checking state" w))))
                       (get_request url1) = Responds r1)
    by (rewrite length_requested_record, requested_note; exact Hportal).
  rewrite (run_body_reaches_login net (S fuel) w r0 _ url1 r1 Hprobe Hscript1 Hportal' H1).
  set (w1 := record (get_request url1) _).
  assert (Hlen : List.length (requested w1) = S (S n)).
  { subst w1 n. world_simpl. rewrite !length_app. simpl. lia. }
  assert (Hp1 : parser (self w1) = parser (self w)) by (subst w1; world_simpl; reflexivity).
  unfold bind. rewrite login_eq, Hbase, Hmagic. cbv zeta.
  rewrite Hlen, Hp1. fold post. rewrite Hpost, H2. cbn [negb]. rewrite Z.eqb_refl.
  cbn [negb]. rewrite Hscript2, length_requested_record, Hlen, Hget, H3, Z.eqb_refl.
  cbn [negb after_login].
  eexists. split; [reflexivity|].
  subst w1. world_simpl. rewrite <- !app_assoc. repeat split.
Qed.

Lemma run_full_cycle_witness :
  exists w',
    run_body (Gateway.gateway 9) 1 (init Gateway.args)
    = keepalive (Gateway.gateway 9) 1 Gateway.keepalive_url w' /\
    logged_in (self w') = true /\
    logout_url (self w') = "https://gw/logout?id=1" /\
    parser (self w') = Gateway.args /\
    requested w' =
      [canary; get_request Gateway.portal_url;
       post_request "https://gw/" (login_data Gateway.args "0a1b");
       get_request Gateway.keepalive_url] /\
    slept w' = [].
Proof.
  apply (run_full_cycle (Gateway.gateway 9) 0 (init Gateway.args)
           Gateway.intercepted Gateway.portal_url Gateway.form "https://gw/" "0a1b"
           Gateway.accepted Gateway.keepalive_url Gateway.session);
    first [reflexivity | discriminate].
Defined.









(** X20: the prober retries at once. When its first [k] canary requests
    fail or get a status other than 200 and the next gets status 200, it
    returns after exactly [k + 1] canary requests without having slept in
    between. *)
Theorem state_check_retries_without_delay net fuel k w r :
  (forall i, (i < k)%nat -> not_ok (net (List.length (requested w) + i)%nat canary)) ->
  net (List.length (requested w) + k)%nat canary = Responds r ->
  status_code r = 200 ->
  (k < fuel)%nat ->
  exists b w',
    state_check net fuel w = Returns (b, r) w' /\
    requested w' = (requested w ++ repeat canary (S k))%list /\
    slept w' = slept w.
Proof.
  intros Hretry Hans H200 Hk. rewrite state_check_eq.
  destruct (state_check_loop_returns net fuel k (note INFO "Checking state" w) r)
    as (w' & -> & _ & Hslept & Hreq); autorewrite with world; auto.
  exists (url r =? ONE_ONE_ONE_ONE_HTTPS)%string, w'.
  autorewrite with world in *. auto.
Qed.

Lemma state_check_retries_without_delay_witness :
  exists b w',
    state_check Gateway.flaky 3 (init Gateway.args) = Returns (b, Gateway.open_internet) w' /\
    requested w' = [canary; canary] /\
    slept w' = [].
Proof.
  apply (state_check_retries_without_delay Gateway.flaky 3 1 (init Gateway.args)
           Gateway.open_internet).
  - intros [|i] Hi; [simpl; discriminate | lia].
  - reflexivity.
  - reflexivity.
  - lia.
Defined.
